(** * Media-Converter: a shallow embedding of [media_converter.py]

    The Python program classifies files by extension, asks the operator for
    a target format, copies or transcodes every file and prints a summary.
    This development embeds the program as Rocq functions over an explicit
    world (the four counters, the three name lists, the file system, the
    operator's input lines, the printed lines and a log of calls) and
    proves properties of that embedding.

    Modelling scope.
    - Strings are sequences of 8-bit characters; [lower], [upper] and
      [strip] act on ASCII as Python's [str] methods do on ASCII text.
    - [Path] follows [pathlib.PurePosixPath] (Python up to 3.12): an anchor
      and a list of components.  Paths are compared as the program spells
      them; symbolic links and [..] are not resolved.
    - The file system is a finite map from paths to nodes.  A folder is
      listed in the enumeration order of the map ([iterdir] promises no
      order either).  Writing a file puts it into the map without looking
      at its folder; [main] creates the output folder before any write.
    - The operator's input is a list of lines; [input] at the end of the
      list raises [EOFError], so every prompt loop ends.
    - The media libraries (moviepy, PIL) and [shutil.copy2] are external:
      their results are supplied by a [MediaLib] record, any of whose
      functions may report an exception. *)

From stdpp Require Import base tactics option list strings pretty countable gmap.
From Stdlib Require Import Ascii.

Local Open Scope nat_scope.

(** ** Strings *)

Module Str.

Definition lower_char (c : ascii) : ascii :=
  let n := nat_of_ascii c in
  if (65 <=? n) && (n <=? 90) then ascii_of_nat (n + 32) else c.

Definition upper_char (c : ascii) : ascii :=
  let n := nat_of_ascii c in
  if (97 <=? n) && (n <=? 122) then ascii_of_nat (n - 32) else c.

Fixpoint map_chars (f : ascii → ascii) (s : string) : string :=
  match s with
  | EmptyString => EmptyString
  | String c r => String (f c) (map_chars f r)
  end.

(** [s.lower()] and [s.upper()] *)
Definition lower : string → string := map_chars lower_char.
Definition upper : string → string := map_chars upper_char.

(** Characters removed by [s.strip()]: tab, LF, VT, FF, CR, FS, GS, RS, US
    and space. *)
Definition is_space (c : ascii) : bool :=
  let n := nat_of_ascii c in
  ((9 <=? n) && (n <=? 13)) || ((28 <=? n) && (n <=? 32)).

Fixpoint lstrip (s : string) : string :=
  match s with
  | EmptyString => EmptyString
  | String c r => if is_space c then lstrip r else s
  end.

(** [rstrip] keeps a character when it is not a space or when something
    remains after it. *)
Fixpoint rstrip (s : string) : string :=
  match s with
  | EmptyString => EmptyString
  | String c r =>
      match rstrip r with
      | EmptyString => if is_space c then EmptyString else String c EmptyString
      | r' => String c r'
      end
  end.

Definition strip (s : string) : string := rstrip (lstrip s).

(** [s.rfind('.')]: the index of the last dot, [None] for Python's -1. *)
Fixpoint rfind_dot (s : string) : option nat :=
  match s with
  | EmptyString => None
  | String c r =>
      match rfind_dot r with
      | Some i => Some (S i)
      | None => if Ascii.eqb c "." then Some 0 else None
      end
  end.

(** [x in (a, b, ...)] on strings *)
Definition mem (x : string) (l : list string) : bool :=
  existsb (String.eqb x) l.

(** [s.startswith(p)] *)
Definition startswith (p s : string) : bool := String.prefix p s.

(** [s.split(sep)] for a one-character separator *)
Fixpoint split (sep : ascii) (s : string) : list string :=
  match s with
  | EmptyString => [EmptyString]
  | String c r =>
      if Ascii.eqb c sep then EmptyString :: split sep r
      else match split sep r with
           | h :: t => String c h :: t
           | [] => [String c EmptyString]
           end
  end.

(** [dict.get(k)] on a literal dictionary *)
Fixpoint assoc {V} (k : string) (d : list (string * V)) : option V :=
  match d with
  | [] => None
  | (k', v) :: r => if String.eqb k k' then Some v else assoc k r
  end.

End Str.

(** ** Paths *)

(** A pure path: [anchor] is the root ([""] for a relative path, ["/"] or
    ["//"]), [parts] are the components after it. *)
Record Path := mkPath { anchor : string; parts : list string }.

Global Instance Path_eq_dec : EqDecision Path.
Proof. solve_decision. Defined.

Global Instance Path_countable : Countable Path.
Proof.
  refine (inj_countable' (λ p, (anchor p, parts p))
                         (λ x, mkPath (fst x) (snd x)) _).
  by intros [].
Defined.

(** [Path(s)]: split at slashes, drop empty and ["."] components; exactly
    two leading slashes are kept as the root ["//"]. *)
Definition Path_of_string (s : string) : Path :=
  let root :=
    if Str.startswith "///" s then "/"
    else if Str.startswith "//" s then "//"
    else if Str.startswith "/" s then "/"
    else "" in
  mkPath root
    (List.filter (λ x, negb (String.eqb x "") && negb (String.eqb x "."))
                 (Str.split "/" s)).

(** [p.name] *)
Definition name (p : Path) : string := List.last (parts p) "".

(** [p.parent] *)
Definition parent (p : Path) : Path := mkPath (anchor p) (removelast (parts p)).

(** [p / s] for a single component [s] *)
Definition joinpath (p : Path) (s : string) : Path :=
  mkPath (anchor p) (parts p ++ [s]).

Infix "//" := joinpath (at level 40, left associativity).

(** [p.suffix]:
    [i = name.rfind('.')]; [name[i:]] if [0 < i < len(name) - 1] else [''] *)
Definition suffix (p : Path) : string :=
  let name := name p in
  match Str.rfind_dot name with
  | Some i =>
      if (0 <? i) && (i <? String.length name - 1)
      then String.substring i (String.length name - i) name
      else ""
  | None => ""
  end.

(** [p.stem]: [name[:i]] under the same test, else [name] *)
Definition stem (p : Path) : string :=
  let name := name p in
  match Str.rfind_dot name with
  | Some i =>
      if (0 <? i) && (i <? String.length name - 1)
      then String.substring 0 i name
      else name
  | None => name
  end.

(** ** The file system *)

Inductive Node :=
  | File (data : string)   (* a regular file and its bytes *)
  | Dir
  | Special.               (* exists, but neither regular file nor directory *)

Global Instance Node_eq_dec : EqDecision Node.
Proof. solve_decision. Defined.

Abbreviation FS := (gmap Path Node).

Definition fs_exists (fs : FS) (p : Path) : bool :=
  match fs !! p with Some _ => true | None => false end.

Definition fs_is_file (fs : FS) (p : Path) : bool :=
  match fs !! p with Some (File _) => true | _ => false end.

Definition fs_is_dir (fs : FS) (p : Path) : bool :=
  match fs !! p with Some Dir => true | _ => false end.

(** The entries directly below [p], in the listing order of the map. *)
Definition fs_children (fs : FS) (p : Path) : list Path :=
  List.filter (λ q, bool_decide (parent q = p ∧ parts q ≠ []))
              (fst <$> map_to_list fs).

(** ** The world of one run *)

(** The module-level dictionary [summary]. *)
Record Summary := mkSummary {
  converted : nat;
  copied : nat;
  skipped : nat;
  failed : nat
}.

Inductive MediaKind := video | audio | image.

Global Instance MediaKind_eq_dec : EqDecision MediaKind.
Proof. solve_decision. Defined.

(** The string the program uses for a kind. *)
Definition kind_str (k : MediaKind) : string :=
  match k with video => "video" | audio => "audio" | image => "image" end.

(** The exception value: its text, as [str(e)] prints it. *)
Definition Exn := string.
Definition EOFError : Exn := "EOF when reading a line".

(** A log of the calls that matter to the properties below: the intent
    prompts, the path allocator, the copy, the four transcode functions and
    the library calls they make.  The log is instrumentation only; no
    function reads it. *)
Inductive Call :=
  | call_choose_conversion_for_video
  | call_choose_extension (ftype : MediaKind)
  | call_get_unique_file_path (dest : Path)
  | call_copy2 (src dest : Path)
  | call_convert_video_to_video (src dest : Path)
  | call_convert_video_to_audio (src dest : Path)
  | call_convert_audio_to_audio (src dest : Path)
  | call_convert_image_to_image (src dest : Path)
  | call_VideoFileClip (src : Path)
  | call_AudioFileClip (src : Path)
  | call_write_videofile (dest : Path) (codec : string) (audio_codec : option string)
  | call_write_audiofile (dest : Path) (codec : string)
  | call_Image_open (src : Path)
  | call_Image_save (dest : Path) (mode : string).

Global Instance Call_eq_dec : EqDecision Call.
Proof. solve_decision. Defined.

Record World := mkWorld {
  summary : Summary;
  correct_format_files : list string;
  failed_files : list string;
  skipped_files : list string;
  fs : gmap Path Node;
  stdin : list string;    (* the operator's remaining input lines *)
  stdout : list string;   (* what was printed, one entry per call *)
  calls : list Call
}.

(** The state at process start, for a file system and an input script. *)
Definition initial_world (fs : FS) (lines : list string) : World :=
  mkWorld (mkSummary 0 0 0 0) [] [] [] fs lines [] [].

Definition set_summary (s : Summary) (w : World) : World :=
  mkWorld s (correct_format_files w) (failed_files w) (skipped_files w)
          (fs w) (stdin w) (stdout w) (calls w).
Definition set_correct_format_files (l : list string) (w : World) : World :=
  mkWorld (summary w) l (failed_files w) (skipped_files w)
          (fs w) (stdin w) (stdout w) (calls w).
Definition set_failed_files (l : list string) (w : World) : World :=
  mkWorld (summary w) (correct_format_files w) l (skipped_files w)
          (fs w) (stdin w) (stdout w) (calls w).
Definition set_skipped_files (l : list string) (w : World) : World :=
  mkWorld (summary w) (correct_format_files w) (failed_files w) l
          (fs w) (stdin w) (stdout w) (calls w).
Definition set_fs (f : FS) (w : World) : World :=
  mkWorld (summary w) (correct_format_files w) (failed_files w) (skipped_files w)
          f (stdin w) (stdout w) (calls w).
Definition set_stdin (l : list string) (w : World) : World :=
  mkWorld (summary w) (correct_format_files w) (failed_files w) (skipped_files w)
          (fs w) l (stdout w) (calls w).
Definition set_stdout (l : list string) (w : World) : World :=
  mkWorld (summary w) (correct_format_files w) (failed_files w) (skipped_files w)
          (fs w) (stdin w) l (calls w).
Definition set_calls (l : list Call) (w : World) : World :=
  mkWorld (summary w) (correct_format_files w) (failed_files w) (skipped_files w)
          (fs w) (stdin w) (stdout w) l.

(** ** Computations: state and exceptions *)

Inductive Result (A : Type) :=
  | Ok (a : A) (w : World)       (* returned [a] *)
  | Raise (e : Exn) (w : World). (* an [Exception] is propagating *)
Arguments Ok {A} a w.
Arguments Raise {A} e w.

Definition M (A : Type) : Type := World → Result A.

Definition ret {A} (a : A) : M A := λ w, Ok a w.

Definition bind {A B} (m : M A) (f : A → M B) : M B := λ w,
  match m w with
  | Ok a w' => f a w'
  | Raise e w' => Raise e w'
  end.

Declare Scope prog_scope.
Delimit Scope prog_scope with prog.
Bind Scope prog_scope with M.
Notation "x ← y ; z" := (bind y (λ x, z))
  (at level 20, y at level 100, z at level 200, only parsing) : prog_scope.
Notation "x ;; z" := (bind x (λ _, z))
  (at level 100, z at level 200, only parsing, right associativity) : prog_scope.
Open Scope prog_scope.

Definition raise {A} (e : Exn) : M A := λ w, Raise e w.

(** [try: m except Exception as e: handler e] *)
Definition try_except {A} (m : M A) (handler : Exn → M A) : M A := λ w,
  match m w with
  | Ok a w' => Ok a w'
  | Raise e w' => handler e w'
  end.

(** [for x in l: body x] *)
Fixpoint for_each {A} (l : list A) (body : A → M unit) : M unit :=
  match l with
  | [] => ret tt
  | x :: r => body x;; for_each r body
  end.

(** The truth value of a list: [if v] holds for a non-empty one. *)
Definition truthy {A} (l : list A) : bool :=
  match l with [] => false | _ :: _ => true end.

(** A loop that also threads a local value, for a loop that fills a local
    dictionary. *)
Fixpoint for_fold {A S} (l : list A) (s : S) (body : S → A → M S) : M S :=
  match l with
  | [] => ret s
  | x :: r => s' ← body s x; for_fold r s' body
  end.

Definition modify (f : World → World) : M unit := λ w, Ok tt (f w).
Definition read {A} (f : World → A) : M A := λ w, Ok (f w) w.

Definition print (s : string) : M unit :=
  modify (λ w, set_stdout (stdout w ++ [s]) w).
Definition log (c : Call) : M unit :=
  modify (λ w, set_calls (calls w ++ [c]) w).

(** [summary["converted"] += 1] and its three siblings *)
Definition incr_converted : M unit := modify (λ w,
  let s := summary w in
  set_summary (mkSummary (S (converted s)) (copied s) (skipped s) (failed s)) w).
Definition incr_copied : M unit := modify (λ w,
  let s := summary w in
  set_summary (mkSummary (converted s) (S (copied s)) (skipped s) (failed s)) w).
Definition incr_skipped : M unit := modify (λ w,
  let s := summary w in
  set_summary (mkSummary (converted s) (copied s) (S (skipped s)) (failed s)) w).
Definition incr_failed : M unit := modify (λ w,
  let s := summary w in
  set_summary (mkSummary (converted s) (copied s) (skipped s) (S (failed s))) w).

(** [correct_format_files.append(x)] and its two siblings *)
Definition append_correct_format_files (x : string) : M unit :=
  modify (λ w, set_correct_format_files (correct_format_files w ++ [x]) w).
Definition append_failed_files (x : string) : M unit :=
  modify (λ w, set_failed_files (failed_files w ++ [x]) w).
Definition append_skipped_files (x : string) : M unit :=
  modify (λ w, set_skipped_files (skipped_files w ++ [x]) w).

(** [p.exists()], [p.is_file()], [p.is_dir()] *)
Definition path_exists (p : Path) : M bool := read (λ w, fs_exists (fs w) p).
Definition is_file (p : Path) : M bool := read (λ w, fs_is_file (fs w) p).
Definition is_dir (p : Path) : M bool := read (λ w, fs_is_dir (fs w) p).

(** [list(p.iterdir())]; a path that is no directory raises. *)
Definition iterdir (p : Path) : M (list Path) := λ w,
  if fs_is_dir (fs w) p then Ok (fs_children (fs w) p) w
  else Raise "Not a directory" w.

(** ** Operator input *)

(** [while True: pre; x = input(prompt); body x], where [body] either
    returns a value ([Some]) or goes round again ([None]).  Each round
    writes the prompt and consumes one line; when the input is exhausted
    [input] raises [EOFError].  The bodies used below do not read input
    themselves. *)
Fixpoint input_loop {A} (pre : M unit) (prompt : string)
    (body : string → M (option A)) (lines : list string) : M A :=
  pre;;
  print prompt;;
  match lines with
  | [] => raise EOFError
  | line :: rest =>
      modify (set_stdin rest);;
      r ← body line;
      match r with
      | Some a => ret a
      | None => input_loop pre prompt body rest
      end
  end.

Definition while_input {A} (pre : M unit) (prompt : string)
    (body : string → M (option A)) : M A :=
  lines ← read stdin;
  input_loop pre prompt body lines.

(** ** The external libraries *)

Inductive Reply (A : Type) :=
  | Returns (a : A)
  | Raises (e : Exn).
Arguments Returns {A} a.
Arguments Raises {A} e.

(** What a writer did: it wrote the whole output, or it raised, possibly
    leaving a partial file behind. *)
Inductive WriteOutcome :=
  | Written (out : string)
  | WriteFailed (e : Exn) (residue : option string).

Record MediaLib := mkMediaLib {
  (* [VideoFileClip(src)] on a file with these bytes: whether
     [clip.audio is not None], or an exception *)
  lib_VideoFileClip : Path → string → Reply bool;
  lib_AudioFileClip : Path → string → Reply unit;
  (* [clip.write_videofile(dest, codec=, audio_codec=)] *)
  lib_write_videofile : string → Path → string → option string → WriteOutcome;
  (* [clip.write_audiofile(dest, codec=)] *)
  lib_write_audiofile : string → Path → string → WriteOutcome;
  (* [Image.open(src)]: the image mode, or an exception *)
  lib_Image_open : Path → string → Reply string;
  (* [img.convert("RGB")]: the converted pixels *)
  lib_Image_convert : string → string → Reply string;
  (* [img.save(dest)] for pixels in a mode *)
  lib_Image_save : string → string → Path → WriteOutcome;
  (* [shutil.copy2(src, dest)]: an I/O error, if any *)
  lib_copy2 : Path → Path → option Exn
}.

(** ** The program *)

Definition VIDEO_EXTS : list string := [".mp4"; ".mov"; ".avi"; ".mkv"; ".webm"].
Definition AUDIO_EXTS : list string := [".mp3"; ".wav"; ".m4a"; ".flac"; ".ogg"].
Definition IMAGE_EXTS : list string :=
  [".png"; ".jpg"; ".jpeg"; ".webp"; ".bmp"; ".gif"; ".tiff"].

Definition detect_type (file_path : Path) : option MediaKind :=
  let ext := Str.lower (suffix file_path) in
  if Str.mem ext VIDEO_EXTS then Some video
  else if Str.mem ext AUDIO_EXTS then Some audio
  else if Str.mem ext IMAGE_EXTS then Some image
  else None.

Definition audio_codec_for_ext (ext : string) : string :=
  default "aac"
    (Str.assoc ext [(".mp3", "libmp3lame"); (".wav", "pcm_s16le");
                    (".m4a", "aac"); (".flac", "flac"); (".ogg", "libvorbis")]).

(** The loop of [get_unique_file_path] and [get_unique_output_folder]:
    [while True: candidate = cand i; if not candidate.exists(): return
    candidate; i += 1].  [fuel] bounds the number of occupied candidates
    stepped over; both callers pass the number of entries of the file
    system, and [unique_loop_free] shows that the candidate returned when
    the bound is reached does not exist either. *)
Fixpoint unique_loop (fs : FS) (cand : nat → Path) (fuel i : nat) : Path :=
  match fuel with
  | 0 => cand i
  | S k => if fs_exists fs (cand i) then unique_loop fs cand k (S i) else cand i
  end.

Definition file_candidate (dest : Path) (i : nat) : Path :=
  parent dest // (stem dest +:+ " (" +:+ pretty i +:+ ")" +:+ suffix dest).

Definition unique_file_path (fs : FS) (dest : Path) : Path :=
  if negb (fs_exists fs dest) then dest
  else unique_loop fs (file_candidate dest) (size fs) 1.

Definition get_unique_file_path (dest : Path) : M Path :=
  log (call_get_unique_file_path dest);;
  fs ← read fs;
  ret (unique_file_path fs dest).

Definition folder_candidate (base_dir : Path) (i : nat) : Path :=
  parent base_dir // (name base_dir +:+ " (" +:+ pretty i +:+ ")").

Definition get_unique_output_folder (base_dir : Path) : M Path :=
  fs ← read fs;
  if negb (fs_exists fs base_dir) then ret base_dir
  else ret (unique_loop fs (folder_candidate base_dir) (size fs) 1).

Definition input (prompt : string) : M string :=
  print prompt;;
  lines ← read stdin;
  match lines with
  | [] => raise EOFError
  | line :: rest => modify (set_stdin rest);; ret line
  end.

Definition get_target : M Path :=
  while_input (ret tt) "Enter target file or folder path: " (λ line,
    let target := Str.strip line in
    if String.eqb target "" then
      print "Please enter a valid path";; ret None
    else
      let target_path := Path_of_string target in
      e ← path_exists target_path;
      if negb e then print "That path does not exist. Try again.";; ret None
      else ret (Some target_path)).

(** The [while] loop of [get_output_folder]; one line is consumed per
    round. *)
Fixpoint get_output_folder_loop (default_dir out_path : Path)
    (lines : list string) : M (Path * bool) :=
  e ← path_exists out_path;
  d ← is_dir out_path;
  if negb e || negb d then
    print "Invalid folder. Re-enter path or press Enter to skip: ";;
    match lines with
    | [] => raise EOFError
    | line :: rest =>
        modify (set_stdin rest);;
        let retry := Str.strip line in
        if String.eqb retry "" then ret (default_dir, false)
        else get_output_folder_loop default_dir (Path_of_string retry) rest
    end
  else ret (out_path, true).

Definition get_output_folder (default_dir : Path) : M (Path * bool) :=
  out ← input "Enter output folder (press Enter for default): ";
  let out := Str.strip out in
  if String.eqb out "" then ret (default_dir, false)
  else
    lines ← read stdin;
    get_output_folder_loop default_dir (Path_of_string out) lines.

Definition choose_conversion_for_video : M string :=
  log call_choose_conversion_for_video;;
  while_input
    (print "Video conversion options:";;
     print "1) Video → Video";;
     print "2) Video → Audio")
    "Choose (1/2): "
    (λ line,
      let choice := Str.strip line in
      if Str.mem choice ["1"; "2"] then ret (Some choice)
      else print "Invalid Selection";; ret None).

Definition VIDEO_CHOICES : list string := ["mp4"; "mov"; "avi"; "mkv"; "webm"].
Definition AUDIO_CHOICES : list string := ["mp3"; "wav"; "m4a"; "flac"; "ogg"].
Definition IMAGE_CHOICES : list string :=
  ["png"; "jpg"; "jpeg"; "webp"; "bmp"; "gif"; "tiff"].

Definition choose_extension (ftype : MediaKind) : M string :=
  log (call_choose_extension ftype);;
  match ftype with
  | video =>
      while_input (ret tt)
        "Enter video extension of output (mp4, mov, avi, mkv, webm): "
        (λ line,
          let dest_ext := Str.lower (Str.strip line) in
          if Str.mem dest_ext VIDEO_CHOICES then ret (Some dest_ext)
          else print "Invalid Selection";; ret None)
  | audio =>
      while_input (ret tt)
        "Enter audio extension of output (mp3, wav, m4a, flac, ogg): "
        (λ line,
          let dest_ext := Str.lower (Str.strip line) in
          if Str.mem dest_ext AUDIO_CHOICES then ret (Some dest_ext)
          else print "Invalid Selection";; ret None)
  | image =>
      while_input (ret tt)
        "Enter image extension of output (png, jpg, jpeg, bmp, gif, tiff): "
        (λ line,
          let dest_ext := Str.lower (Str.strip line) in
          if Str.mem dest_ext IMAGE_CHOICES then ret (Some dest_ext)
          else print "Invalid Selection";; ret None)
  end.

Definition newline : string := String (ascii_of_nat 10) EmptyString.

Definition print_summary : M unit :=
  print (newline +:+ "==== SUMMARY ====");;
  n ← read (λ w, converted (summary w));
  print ("Converted: " +:+ pretty n);;
  n ← read (λ w, copied (summary w));
  print ("Copied (already correct format): " +:+ pretty n);;
  (if 0 <? n then
     print "  - Files already correct format:";;
     l ← read correct_format_files;
     for_each l (λ f, print ("    • " +:+ f))
   else ret tt);;
  n ← read (λ w, skipped (summary w));
  print ("Skipped: " +:+ pretty n);;
  (if 0 <? n then
     print "  - Skipped files:";;
     l ← read skipped_files;
     for_each l (λ f, print ("    • " +:+ f))
   else ret tt);;
  n ← read (λ w, failed (summary w));
  print ("Failed: " +:+ pretty n);;
  (if 0 <? n then
     print "  - Failed files:";;
     l ← read failed_files;
     for_each l (λ f, print ("    • " +:+ f))
   else ret tt);;
  print "=================".

(** [out_path.mkdir(parents=True, exist_ok=True)], from the root down: a
    missing directory is created, an existing one is kept, anything else in
    the way raises. *)
Fixpoint mkdir_parents (root : string) (above below : list string) : M unit :=
  match below with
  | [] => ret tt
  | c :: r =>
      let p := mkPath root (above ++ [c]) in
      fs ← read fs;
      match fs !! p with
      | None => modify (set_fs (<[p := Dir]> fs));; mkdir_parents root (above ++ [c]) r
      | Some Dir => mkdir_parents root (above ++ [c]) r
      | Some _ => raise "File exists"
      end
  end.

Definition mkdir (p : Path) : M unit := mkdir_parents (anchor p) [] (parts p).

Record Clip := mkClip { clip_data : string; clip_audio : bool }.
Record Img := mkImg { img_data : string; img_mode : string }.

(** The local dictionary [types] of [convert_folder], in insertion order. *)
Definition types_append (types : list (MediaKind * list Path))
    (k : MediaKind) (f : Path) : list (MediaKind * list Path) :=
  (λ kv, if decide (kv.1 = k) then (kv.1, kv.2 ++ [f]) else kv) <$> types.

Section Program.

Context (lib : MediaLib).

(** A writer's outcome lands in the file system. *)
Definition write_path (dest : Path) (r : WriteOutcome) : M unit :=
  match r with
  | Written out => modify (λ w, set_fs (<[dest := File out]> (fs w)) w)
  | WriteFailed e None => raise e
  | WriteFailed e (Some part) =>
      modify (λ w, set_fs (<[dest := File part]> (fs w)) w);; raise e
  end.

(** [shutil.copy2(src, dest)]; into [dest] itself, or under the source's
    name when [dest] is a directory. *)
Definition shutil_copy2 (src dest : Path) : M unit :=
  log (call_copy2 src dest);;
  fs ← read fs;
  match fs !! src with
  | Some (File data) =>
      match lib_copy2 lib src dest with
      | Some e => raise e
      | None =>
          let target := if fs_is_dir fs dest then dest // name src else dest in
          modify (set_fs (<[target := File data]> fs))
      end
  | _ => raise "No such file or directory"
  end.

Definition VideoFileClip (src : Path) : M Clip :=
  log (call_VideoFileClip src);;
  fs ← read fs;
  match fs !! src with
  | Some (File data) =>
      match lib_VideoFileClip lib src data with
      | Returns a => ret (mkClip data a)
      | Raises e => raise e
      end
  | _ => raise "MoviePy error: the file could not be found"
  end.

Definition AudioFileClip (src : Path) : M Clip :=
  log (call_AudioFileClip src);;
  fs ← read fs;
  match fs !! src with
  | Some (File data) =>
      match lib_AudioFileClip lib src data with
      | Returns _ => ret (mkClip data true)
      | Raises e => raise e
      end
  | _ => raise "MoviePy error: the file could not be found"
  end.

Definition write_videofile (clip : Clip) (dest : Path) (codec : string)
    (audio_codec : option string) : M unit :=
  log (call_write_videofile dest codec audio_codec);;
  write_path dest (lib_write_videofile lib (clip_data clip) dest codec audio_codec).

Definition write_audiofile (clip : Clip) (dest : Path) (codec : string) : M unit :=
  log (call_write_audiofile dest codec);;
  write_path dest (lib_write_audiofile lib (clip_data clip) dest codec).

(** [clip.close()] and [img.close()] release handles. *)
Definition close : M unit := ret tt.

Definition Image_open (src : Path) : M Img :=
  log (call_Image_open src);;
  fs ← read fs;
  match fs !! src with
  | Some (File data) =>
      match lib_Image_open lib src data with
      | Returns mode => ret (mkImg data mode)
      | Raises e => raise e
      end
  | _ => raise "No such file or directory"
  end.

Definition Image_convert (img : Img) (mode : string) : M Img :=
  match lib_Image_convert lib (img_data img) (img_mode img) with
  | Returns data => ret (mkImg data mode)
  | Raises e => raise e
  end.

Definition Image_save (img : Img) (dest : Path) : M unit :=
  log (call_Image_save dest (img_mode img));;
  write_path dest (lib_Image_save lib (img_data img) (img_mode img) dest).

Definition copy_same_format (src dest : Path) : M bool :=
  if String.eqb (Str.lower (suffix src)) (Str.lower (suffix dest)) then
    e ← path_exists dest;
    dest ← (if e then get_unique_file_path dest else ret dest : M Path);
    shutil_copy2 src dest;;
    incr_copied;;
    append_correct_format_files (name dest);;
    print ("Copied (already correct format): " +:+ name src);;
    ret true
  else ret false.

Definition convert_video_to_video (src dest : Path) : M unit :=
  log (call_convert_video_to_video src dest);;
  clip ← VideoFileClip src;
  let audio_present := clip_audio clip in
  (if String.eqb (Str.lower (suffix dest)) ".webm" then
     write_videofile clip dest "libvpx-vp9"
       (if audio_present then Some "libopus" else None)
   else
     write_videofile clip dest "libx264"
       (if audio_present then Some "aac" else None));;
  close;;
  incr_converted.

Definition convert_video_to_audio (src dest : Path) : M unit :=
  log (call_convert_video_to_audio src dest);;
  clip ← VideoFileClip src;
  if negb (clip_audio clip) then
    close;;
    incr_skipped;;
    append_skipped_files (name src);;
    print ("Skipped (no audio): " +:+ name src)
  else
    let codec := audio_codec_for_ext (Str.lower (suffix dest)) in
    write_audiofile clip dest codec;;
    close;;
    incr_converted.

Definition convert_audio_to_audio (src dest : Path) : M unit :=
  log (call_convert_audio_to_audio src dest);;
  clip ← AudioFileClip src;
  let codec := audio_codec_for_ext (Str.lower (suffix dest)) in
  write_audiofile clip dest codec;;
  close;;
  incr_converted.

Definition convert_image_to_image (src dest : Path) : M unit :=
  log (call_convert_image_to_image src dest);;
  img ← Image_open src;
  img ← (if Str.mem (Str.lower (suffix dest)) [".jpg"; ".jpeg"]
            && negb (String.eqb (img_mode img) "RGB")
         then Image_convert img "RGB" else ret img : M Img);
  Image_save img dest;;
  close;;
  incr_converted.

Definition convert_single_file (src out_dir : Path) : M unit :=
  match detect_type src with
  | None =>
      print ("Skipped (unsupported type): " +:+ name src);;
      incr_skipped;;
      append_skipped_files (name src)
  | Some ftype =>
      print ("Detected file type: " +:+ Str.upper (kind_str ftype));;
      try_except
        (match ftype with
         | video =>
             choice ← choose_conversion_for_video;
             if String.eqb choice "1" then
               dest_ext ← choose_extension ftype;
               dest ← get_unique_file_path (out_dir // (stem src +:+ "." +:+ dest_ext));
               done ← copy_same_format src dest;
               if done then ret tt
               else convert_video_to_video src dest
             else
               dest_ext ← choose_extension audio;
               dest ← get_unique_file_path (out_dir // (stem src +:+ "." +:+ dest_ext));
               done ← copy_same_format src dest;
               if done then ret tt
               else convert_video_to_audio src dest
         | audio =>
             dest_ext ← choose_extension ftype;
             dest ← get_unique_file_path (out_dir // (stem src +:+ "." +:+ dest_ext));
             done ← copy_same_format src dest;
             if done then ret tt
             else convert_audio_to_audio src dest
         | image =>
             dest_ext ← choose_extension ftype;
             dest ← get_unique_file_path (out_dir // (stem src +:+ "." +:+ dest_ext));
             done ← copy_same_format src dest;
             if done then ret tt
             else convert_image_to_image src dest
         end)
        (λ e,
          print ("Failed to convert " +:+ name src +:+ ": " +:+ e);;
          incr_failed;;
          append_failed_files (name src))
  end.

Definition convert_all_same_type (ftype : MediaKind) (files : list Path)
    (out_dir : Path) : M unit :=
  match ftype with
  | video =>
      choice ← choose_conversion_for_video;
      if String.eqb choice "1" then
        dest_ext ← choose_extension ftype;
        for_each files (λ f,
          dest ← get_unique_file_path (out_dir // (stem f +:+ "." +:+ dest_ext));
          done ← copy_same_format f dest;
          if done then ret tt
          else
            try_except (convert_video_to_video f dest)
              (λ e,
                print ("Failed: " +:+ name f +:+ " - " +:+ e);;
                incr_failed;;
                append_failed_files (name f)))
      else
        dest_ext ← choose_extension audio;
        for_each files (λ f,
          dest ← get_unique_file_path (out_dir // (stem f +:+ "." +:+ dest_ext));
          done ← copy_same_format f dest;
          if done then ret tt
          else
            try_except (convert_video_to_audio f dest)
              (λ e,
                print ("Failed: " +:+ name f +:+ " - " +:+ e);;
                incr_failed;;
                append_failed_files (name f)))
  | audio =>
      dest_ext ← choose_extension ftype;
      for_each files (λ f,
        dest ← get_unique_file_path (out_dir // (stem f +:+ "." +:+ dest_ext));
        done ← copy_same_format f dest;
        if done then ret tt
        else
          try_except (convert_audio_to_audio f dest)
            (λ e,
              print ("Failed: " +:+ name f +:+ " - " +:+ e);;
              incr_failed;;
              append_failed_files (name f)))
  | image =>
      dest_ext ← choose_extension ftype;
      for_each files (λ f,
        dest ← get_unique_file_path (out_dir // (stem f +:+ "." +:+ dest_ext));
        done ← copy_same_format f dest;
        if done then ret tt
        else
          try_except (convert_image_to_image f dest)
            (λ e,
              print ("Failed: " +:+ name f +:+ " - " +:+ e);;
              incr_failed;;
              append_failed_files (name f)))
  end.

(** The body of [for ftype, flist in non_empty.items()] in the branch of
    [convert_folder] for several kinds. *)
Definition convert_group (out_dir : Path) (group : MediaKind * list Path) : M unit :=
  let '(ftype, flist) := group in
  print (newline +:+ Str.upper (kind_str ftype) +:+ " files found: "
           +:+ pretty (length flist));;
  match ftype with
  | video =>
      choice ← choose_conversion_for_video;
      if String.eqb choice "1" then
        dest_ext ← choose_extension ftype;
        for_each flist (λ f,
          dest ← get_unique_file_path (out_dir // (stem f +:+ "." +:+ dest_ext));
          done ← copy_same_format f dest;
          if done then ret tt
          else convert_video_to_video f dest)
      else
        dest_ext ← choose_extension audio;
        for_each flist (λ f,
          dest ← get_unique_file_path (out_dir // (stem f +:+ "." +:+ dest_ext));
          done ← copy_same_format f dest;
          if done then ret tt
          else convert_video_to_audio f dest)
  | audio =>
      dest_ext ← choose_extension ftype;
      for_each flist (λ f,
        dest ← get_unique_file_path (out_dir // (stem f +:+ "." +:+ dest_ext));
        done ← copy_same_format f dest;
        if done then ret tt
        else convert_audio_to_audio f dest)
  | image =>
      dest_ext ← choose_extension ftype;
      for_each flist (λ f,
        dest ← get_unique_file_path (out_dir // (stem f +:+ "." +:+ dest_ext));
        done ← copy_same_format f dest;
        if done then ret tt
        else convert_image_to_image f dest)
  end.

(** [files = [f for f in folder.iterdir() if f.is_file()]] *)
Definition folder_files (folder : Path) : M (list Path) :=
  entries ← iterdir folder;
  fs ← read fs;
  ret (List.filter (fs_is_file fs) entries).

(** The first loop of [convert_folder]: group by kind, record the
    unsupported files as skipped. *)
Definition classify_files (files : list Path) : M (list (MediaKind * list Path)) :=
  for_fold files [(video, []); (audio, []); (image, [])] (λ types f,
    match detect_type f with
    | Some ftype => ret (types_append types ftype f)
    | None =>
        append_skipped_files (name f);;
        print ("Skipped (unsupported type): " +:+ name f);;
        incr_skipped;;
        ret types
    end).

Definition convert_folder (folder out_dir : Path) : M unit :=
  files ← folder_files folder;
  types ← classify_files files;
  let non_empty := List.filter (λ kv, truthy kv.2) types in
  match non_empty with
  | [(ftype, flist)] =>
      print ("Folder contains only " +:+ kind_str ftype +:+ " files.");;
      convert_all_same_type ftype flist out_dir
  | _ =>
      print "Folder contains multiple file types.";;
      for_each non_empty (convert_group out_dir)
  end.

Definition main : M unit :=
  target ← get_target;
  target_is_file ← is_file target;
  let default_out :=
    if target_is_file then parent target // "Converted Media"
    else target // "Converted Media" in
  r ← get_output_folder default_out;
  let '(out_dir, choice) := r in
  out_dir ← (if negb choice then get_unique_output_folder out_dir
             else ret out_dir : M Path);
  mkdir out_dir;;
  target_is_file ← is_file target;
  (if target_is_file then convert_single_file target out_dir
   else
     target_is_dir ← is_dir target;
     if target_is_dir then convert_folder target out_dir
     else
       print "Target is neither a file nor folder.";;
       incr_failed);;
  print_summary.

End Program.

(** ** Sample environment, used to run the program on concrete inputs *)

(** A library where bytes ["corrupt"] cannot be decoded, a video with bytes
    ["silent"] has no audio track, and every writer succeeds. *)
Definition demo_lib : MediaLib := {|
  lib_VideoFileClip := λ _ d,
    if String.eqb d "corrupt" then Raises "bad video"
    else Returns (negb (String.eqb d "silent"));
  lib_AudioFileClip := λ _ d,
    if String.eqb d "corrupt" then Raises "bad audio" else Returns tt;
  lib_write_videofile := λ d _ c a, Written (c +:+ ":" +:+ d);
  lib_write_audiofile := λ d _ c, Written (c +:+ ":" +:+ d);
  lib_Image_open := λ _ d,
    if String.eqb d "corrupt" then Raises "bad image" else Returns "RGBA";
  lib_Image_convert := λ d _, Returns d;
  lib_Image_save := λ d m _, Written (m +:+ ":" +:+ d);
  lib_copy2 := λ _ _, None
|}.

(** A folder of two videos (the first one corrupt), an image and a text
    file, and an empty output folder. *)
Definition mixed_fs : FS :=
  list_to_map [(Path_of_string "/in", Dir);
               (Path_of_string "/in/x.mp4", File "corrupt");
               (Path_of_string "/in/w.mp4", File "movie");
               (Path_of_string "/in/y.png", File "pixels");
               (Path_of_string "/in/z.txt", File "text");
               (Path_of_string "/out", Dir)].

(** A folder of three videos only: one corrupt, one without audio, one
    with an upper-case extension; the output folder already holds
    [w.mp4]. *)
Definition video_fs : FS :=
  list_to_map [(Path_of_string "/in", Dir);
               (Path_of_string "/in/x.mp4", File "corrupt");
               (Path_of_string "/in/s.mp4", File "silent");
               (Path_of_string "/in/w.MP4", File "movie");
               (Path_of_string "/out", Dir);
               (Path_of_string "/out/w.mp4", File "old")].


(** A folder that already holds [a.png] and [a (1).png]. *)
Definition png_fs : FS :=
  list_to_map [(Path_of_string "/d", Dir);
               (Path_of_string "/d/a.png", File "1");
               (Path_of_string "/d/a (1).png", File "2")].

(** ** Vocabulary of the properties *)

(** The result aggregator's state: the counters and the three lists. *)
Record Ledger := mkLedger {
  l_summary : Summary;
  l_copied : list string;
  l_skipped : list string;
  l_failed : list string
}.

Definition ledger (w : World) : Ledger :=
  mkLedger (summary w) (correct_format_files w) (skipped_files w) (failed_files w).


(** The outcome of one file.  A copy carries the path written to. *)
Inductive Outcome :=
  | Converted
  | Copied (dest : Path)
  | Skipped
  | Failed.

(** Recording one outcome for source file [f]: one counter goes up by one;
    a copy records the destination's name, a skip or a failure records the
    source's name, a conversion records no name. *)
Definition record (f : Path) (o : Outcome) (L : Ledger) : Ledger :=
  let s := l_summary L in
  match o with
  | Converted =>
      mkLedger (mkSummary (S (converted s)) (copied s) (skipped s) (failed s))
               (l_copied L) (l_skipped L) (l_failed L)
  | Copied dest =>
      mkLedger (mkSummary (converted s) (S (copied s)) (skipped s) (failed s))
               (l_copied L ++ [name dest]) (l_skipped L) (l_failed L)
  | Skipped =>
      mkLedger (mkSummary (converted s) (copied s) (S (skipped s)) (failed s))
               (l_copied L) (l_skipped L ++ [name f]) (l_failed L)
  | Failed =>
      mkLedger (mkSummary (converted s) (copied s) (skipped s) (S (failed s)))
               (l_copied L) (l_skipped L) (l_failed L ++ [name f])
  end.

(** Recording a sequence of files with their outcomes, in order. *)
Definition record_all (fos : list (Path * Outcome)) (L : Ledger) : Ledger :=
  foldl (λ L fo, record fo.1 fo.2 L) L fos.

(** Postconditions: [Q] for a normal return, [E] for an exception. *)
Definition post {A} (m : M A) (w : World)
    (Q : A → World → Prop) (E : Exn → World → Prop) : Prop :=
  match m w with
  | Ok a w' => Q a w'
  | Raise e w' => E e w'
  end.


(** The calls made to the media libraries. *)
Definition is_lib_call (c : Call) : bool :=
  match c with
  | call_VideoFileClip _ | call_AudioFileClip _
  | call_write_videofile _ _ _ | call_write_audiofile _ _
  | call_Image_open _ | call_Image_save _ _ => true
  | _ => false
  end.




(** The requests made to the path allocator. *)
Definition alloc_request (c : Call) : option Path :=
  match c with call_get_unique_file_path d => Some d | _ => None end.

(** The report of the spec's [render]: the four counts, and under each of
    copied, skipped and failed with a count above zero a heading and the
    recorded names in order. *)
Definition report_section (n : nat) (heading : string) (names : list string)
    : list string :=
  if 0 <? n then heading :: (String.append "    • " <$> names) else [].

Definition report_lines (L : Ledger) : list string :=
  let s := l_summary L in
  [newline +:+ "==== SUMMARY ===="; "Converted: " +:+ pretty (converted s);
   "Copied (already correct format): " +:+ pretty (copied s)]
  ++ report_section (copied s) "  - Files already correct format:" (l_copied L)
  ++ ["Skipped: " +:+ pretty (skipped s)]
  ++ report_section (skipped s) "  - Skipped files:" (l_skipped L)
  ++ ["Failed: " +:+ pretty (failed s)]
  ++ report_section (failed s) "  - Failed files:" (l_failed L)
  ++ ["================="].

(** ** Vocabulary of the proofs *)

(** The loop body that [convert_all_same_type] and [convert_folder] repeat
    for every kind: allocate the destination, try the copy, else run the
    transcode function [conv]. *)
Definition per_file (lib : MediaLib) (out_dir : Path) (dest_ext : string)
    (conv : Path → Path → M unit) (f : Path) : M unit :=
  dest ← get_unique_file_path (out_dir // (stem f +:+ "." +:+ dest_ext));
  done ← copy_same_format lib f dest;
  if done then ret tt else conv f dest.

(** The [try]/[except] that [convert_all_same_type] puts around each
    transcode call. *)
Definition guarded (conv : Path → Path → M unit) (f dest : Path) : M unit :=
  try_except (conv f dest)
    (λ e,
      print ("Failed: " +:+ name f +:+ " - " +:+ e);;
      incr_failed;;
      append_failed_files (name f)).

(** The four transcode functions, and the log entry each makes when
    entered. *)
Inductive Transcoder :=
  | video_to_video | video_to_audio | audio_to_audio | image_to_image.

Definition entry_call (t : Transcoder) (src dest : Path) : Call :=
  match t with
  | video_to_video => call_convert_video_to_video src dest
  | video_to_audio => call_convert_video_to_audio src dest
  | audio_to_audio => call_convert_audio_to_audio src dest
  | image_to_image => call_convert_image_to_image src dest
  end.

(** What processing one file [f] does: the outcome recorded ([None] when
    an exception left the loop body), and the calls logged. *)
Inductive file_step (t : Transcoder) (out_dir : Path)
    (ext : string) (f : Path) (w w' : World) : option Outcome → Prop :=
  | step_copied :
      let req := out_dir // (stem f +:+ "." +:+ ext) in
      let dest := unique_file_path (fs w) req in
      Str.lower (suffix f) = Str.lower (suffix dest) →
      calls w' = calls w ++ [call_get_unique_file_path req; call_copy2 f dest] →
      ledger w' = record f (Copied dest) (ledger w) →
      file_step t out_dir ext f w w' (Some (Copied dest))
  | step_copy_raised :
      let req := out_dir // (stem f +:+ "." +:+ ext) in
      let dest := unique_file_path (fs w) req in
      Str.lower (suffix f) = Str.lower (suffix dest) →
      calls w' = calls w ++ [call_get_unique_file_path req; call_copy2 f dest] →
      ledger w' = ledger w →
      file_step t out_dir ext f w w' None
  | step_transcoded (o : Outcome) (libs : list Call) :
      let req := out_dir // (stem f +:+ "." +:+ ext) in
      let dest := unique_file_path (fs w) req in
      Str.lower (suffix f) ≠ Str.lower (suffix dest) →
      calls w' = calls w ++ call_get_unique_file_path req :: entry_call t f dest :: libs →
      Forall (λ c, is_lib_call c = true) libs →
      o ∈ [Converted; Skipped; Failed] →
      ledger w' = record f o (ledger w) →
      file_step t out_dir ext f w w' (Some o)
  | step_transcode_raised (libs : list Call) :
      let req := out_dir // (stem f +:+ "." +:+ ext) in
      let dest := unique_file_path (fs w) req in
      Str.lower (suffix f) ≠ Str.lower (suffix dest) →
      calls w' = calls w ++ call_get_unique_file_path req :: entry_call t f dest :: libs →
      Forall (λ c, is_lib_call c = true) libs →
      ledger w' = ledger w →
      file_step t out_dir ext f w w' None.

(** A loop over files that ran to its end, with the outcome of each. *)
Inductive batch_steps (t : Transcoder) (out_dir : Path)
    (ext : string) : list Path → World → World → list Outcome → Prop :=
  | batch_nil w : batch_steps t out_dir ext [] w w []
  | batch_cons f files o outs w w1 w' :
      file_step t out_dir ext f w w1 (Some o) →
      batch_steps t out_dir ext files w1 w' outs →
      batch_steps t out_dir ext (f :: files) w w' (o :: outs).

(** What a transcode function may do: log its entry and library calls,
    and either record one outcome for [f] or raise with the ledger as it
    was. *)
Definition transcode_spec (t : Transcoder)
    (conv : Path → Path → M unit) : Prop :=
  ∀ f dest w,
    post (conv f dest) w
      (λ _ w', ∃ o libs,
         o ∈ [Converted; Skipped; Failed] ∧
         ledger w' = record f o (ledger w) ∧
         calls w' = calls w ++ entry_call t f dest :: libs ∧
         Forall (λ c, is_lib_call c = true) libs)
      (λ _ w', ∃ libs,
         ledger w' = ledger w ∧
         calls w' = calls w ++ entry_call t f dest :: libs ∧
         Forall (λ c, is_lib_call c = true) libs).

(** The world moved from [w] to [w'] by prompting only: the ledger and the
    file system are as before and the log grew by [cs]. *)
Definition prompted (cs : list Call) (w w' : World) : Prop :=
  ledger w' = ledger w ∧ fs w' = fs w ∧ calls w' = calls w ++ cs.

(** The kind of source a transcode function takes, and the intent calls
    that lead to it. *)
Definition transcoder_kind (t : Transcoder) : MediaKind :=
  match t with
  | video_to_video | video_to_audio => video
  | audio_to_audio => audio
  | image_to_image => image
  end.

Definition intent_calls (t : Transcoder) : list Call :=
  match t with
  | video_to_video => [call_choose_conversion_for_video; call_choose_extension video]
  | video_to_audio => [call_choose_conversion_for_video; call_choose_extension audio]
  | audio_to_audio => [call_choose_extension audio]
  | image_to_image => [call_choose_extension image]
  end.

(** One kind group processed to its end: the intent is asked first, then
    every file of the group goes through the loop body with that answer
    (the transcode function [t] and the extension [ext]). *)
Inductive group_run (out_dir : Path) (k : MediaKind) (flist : list Path)
    (w w' : World) (outs : list Outcome) : Prop :=
  | group_intent t ext w1 :
      transcoder_kind t = k →
      prompted (intent_calls t) w w1 →
      batch_steps t out_dir ext flist w1 w' outs →
      group_run out_dir k flist w w' outs.

Inductive groups_run (out_dir : Path)
    : list (MediaKind * list Path) → World → World → list (Path * Outcome) → Prop :=
  | groups_nil w : groups_run out_dir [] w w []
  | groups_cons k flist groups outs fos w w1 w' :
      group_run out_dir k flist w w1 outs →
      groups_run out_dir groups w1 w' fos →
      groups_run out_dir ((k, flist) :: groups) w w' (zip flist outs ++ fos).

(** The files of a folder listing that [detect_type] puts in kind [k]
    ([None]: unsupported), in listing order. *)
Definition files_of_kind (k : option MediaKind) (files : list Path) : list Path :=
  List.filter (λ f, bool_decide (detect_type f = k)) files.

(** The non-empty kind groups of a listing, in the order video, audio,
    image. *)
Definition kind_groups (files : list Path) : list (MediaKind * list Path) :=
  List.filter (λ kv, truthy kv.2)
    [(video, files_of_kind (Some video) files);
     (audio, files_of_kind (Some audio) files);
     (image, files_of_kind (Some image) files)].

(** The files a run examines: the target itself when it is a regular
    file, the regular files directly inside it when it is a folder, none
    otherwise. *)
Definition examined_files (fs : FS) (target : Path) : list Path :=
  if fs_is_file fs target then [target]
  else if fs_is_dir fs target then List.filter (fs_is_file fs) (fs_children fs target)
  else [].





(** A computation that only talks to the operator. *)
Definition quiet {A} (m : M A) : Prop :=
  ∀ w, post m w (λ _ w', prompted [] w w') (λ _ w', prompted [] w w').

(** The unsupported files of a listing, each with its Skipped outcome. *)
Definition skips (files : list Path) : list (Path * Outcome) :=
  (λ f, (f, Skipped)) <$> files_of_kind None files.

(** A folder processed to its end: the unsupported files are recorded as
    skipped, then every non-empty kind group is run. *)
Definition folder_run (out_dir : Path) (files : list Path) (w w' : World)
    (fos : list (Path * Outcome)) : Prop :=
  ∃ w1, ledger w1 = record_all (skips files) (ledger w) ∧
        fs w1 = fs w ∧ calls w1 = calls w ∧
        groups_run out_dir (kind_groups files) w1 w' fos.




(** A computation that logs nothing. *)
Definition silent {A} (m : M A) : Prop :=
  ∀ w, post m w (λ _ w', calls w' = calls w) (λ _ w', calls w' = calls w).



(** ** Strings and paths *)

Lemma mem_spec (x : string) (l : list string) : Str.mem x l = true ↔ x ∈ l.
Proof.
  unfold Str.mem. induction l as [|y l IH]; simpl.
  - split; [done | by intros ?%elem_of_nil].
  - rewrite orb_true_iff, IH, elem_of_cons, String.eqb_eq. done.
Qed.

Lemma mem_false (x : string) (l : list string) : Str.mem x l = false ↔ x ∉ l.
Proof. rewrite <- mem_spec. by destruct (Str.mem x l). Qed.





(** ** The classifier *)

Lemma exts_disjoint (e : string) :
  ¬ (e ∈ VIDEO_EXTS ∧ e ∈ AUDIO_EXTS) ∧
  ¬ (e ∈ VIDEO_EXTS ∧ e ∈ IMAGE_EXTS) ∧
  ¬ (e ∈ AUDIO_EXTS ∧ e ∈ IMAGE_EXTS).
Proof.
  assert (Hva : Forall (λ x, x ∉ AUDIO_EXTS) VIDEO_EXTS)
    by (apply (bool_decide_unpack _); vm_compute; exact I).
  assert (Hvi : Forall (λ x, x ∉ IMAGE_EXTS) VIDEO_EXTS)
    by (apply (bool_decide_unpack _); vm_compute; exact I).
  assert (Hai : Forall (λ x, x ∉ IMAGE_EXTS) AUDIO_EXTS)
    by (apply (bool_decide_unpack _); vm_compute; exact I).
  rewrite Forall_forall in Hva, Hvi, Hai.
  split_and!; intros [H1 H2]; [by apply (Hva e) | by apply (Hvi e) | by apply (Hai e)].
Qed.

(** [detect_type] falls in exactly one of four cases. *)
Lemma detect_type_cases (p : Path) :
  let ext := Str.lower (suffix p) in
  (ext ∈ VIDEO_EXTS ∧ detect_type p = Some video) ∨
  ((ext ∉ VIDEO_EXTS) ∧ ext ∈ AUDIO_EXTS ∧ detect_type p = Some audio) ∨
  ((ext ∉ VIDEO_EXTS) ∧ (ext ∉ AUDIO_EXTS) ∧ ext ∈ IMAGE_EXTS
     ∧ detect_type p = Some image) ∨
  ((ext ∉ VIDEO_EXTS) ∧ (ext ∉ AUDIO_EXTS) ∧ (ext ∉ IMAGE_EXTS)
     ∧ detect_type p = None).
Proof.
  intros ext. unfold detect_type. fold ext.
  destruct (Str.mem ext VIDEO_EXTS) eqn:Hv;
    [apply mem_spec in Hv; tauto | apply mem_false in Hv].
  destruct (Str.mem ext AUDIO_EXTS) eqn:Ha;
    [apply mem_spec in Ha; tauto | apply mem_false in Ha].
  destruct (Str.mem ext IMAGE_EXTS) eqn:Hi;
    [apply mem_spec in Hi; tauto | apply mem_false in Hi; tauto].
Qed.



(** ** Running computations *)

Ltac unfold_prog :=
  unfold print, log, incr_converted, incr_copied, incr_skipped, incr_failed,
    append_correct_format_files, append_failed_files, append_skipped_files,
    path_exists, is_file, is_dir, close in *;
  unfold modify, read, bind, ret, raise, try_except in *.

(** ** The path allocator *)

Lemma list_ascii_of_string_app (s t : string) :
  String.list_ascii_of_string (s +:+ t)
  = String.list_ascii_of_string s ++ String.list_ascii_of_string t.
Proof. induction s as [|c s IH]; simpl; [done | by rewrite IH]. Qed.

Lemma list_ascii_of_string_inj (s t : string) :
  String.list_ascii_of_string s = String.list_ascii_of_string t → s = t.
Proof.
  intros H. rewrite <- (String.string_of_list_ascii_of_string s),
    <- (String.string_of_list_ascii_of_string t). by rewrite H.
Qed.

Lemma append_inj_l (s t1 t2 : string) : s +:+ t1 = s +:+ t2 → t1 = t2.
Proof. induction s as [|c s IH]; simpl; [done | intros [=]; auto]. Qed.

Lemma append_inj_r (s1 s2 t : string) : s1 +:+ t = s2 +:+ t → s1 = s2.
Proof.
  intros H. apply list_ascii_of_string_inj.
  apply (f_equal String.list_ascii_of_string) in H.
  rewrite !list_ascii_of_string_app in H. by apply app_inv_tail in H.
Qed.

Lemma joinpath_inj (p : Path) (a b : string) : p // a = p // b → a = b.
Proof.
  unfold joinpath. intros [= H]. apply app_inv_head in H. by injection H.
Qed.

Lemma name_joinpath (p : Path) (a : string) : name (p // a) = a.
Proof. unfold name, joinpath. simpl. apply List.last_last. Qed.

Lemma file_candidate_inj (dest : Path) (i j : nat) :
  file_candidate dest i = file_candidate dest j → i = j.
Proof.
  unfold file_candidate. intros H%joinpath_inj.
  apply append_inj_l, append_inj_l, append_inj_r in H.
  by apply (inj pretty) in H.
Qed.

Lemma folder_candidate_inj (base : Path) (i j : nat) :
  folder_candidate base i = folder_candidate base j → i = j.
Proof.
  unfold folder_candidate. intros H%joinpath_inj.
  apply append_inj_l, append_inj_l, append_inj_r in H.
  by apply (inj pretty) in H.
Qed.

(** The loop returns the first candidate from [i] on that does not exist,
    or, after [fuel] occupied candidates, the next one. *)
Lemma unique_loop_first (fs : FS) (cand : nat → Path) (fuel i : nat) :
  ∃ n, unique_loop fs cand fuel i = cand n ∧ i ≤ n ≤ i + fuel ∧
       (∀ k, i ≤ k < n → fs_exists fs (cand k) = true) ∧
       (n < i + fuel → fs_exists fs (cand n) = false).
Proof.
  revert i. induction fuel as [|fuel IH]; intros i; simpl.
  - exists i. split_and!; [done | lia | lia | intros; lia | lia].
  - destruct (fs_exists fs (cand i)) eqn:Hi.
    + destruct (IH (S i)) as (n & Hn & Hle & Hocc & Hfree).
      exists n. split_and!; [done | lia | lia | | intros; apply Hfree; lia].
      intros k Hk. destruct (decide (k = i)) as [-> | ?]; [done|].
      apply Hocc. lia.
    + exists i. split_and!; [done | lia | lia | intros; lia | done].
Qed.

(** No injective family of paths has more existing members than the file
    system has entries. *)
Lemma occupied_bound (fs : FS) (cand : nat → Path) (i n : nat) :
  (∀ a b, cand a = cand b → a = b) →
  (∀ k, i ≤ k < i + n → fs_exists fs (cand k) = true) →
  n ≤ size fs.
Proof.
  intros Hinj Hocc.
  assert (Hnd : NoDup (cand <$> seq i n)).
  { apply NoDup_fmap_2_strong; [|apply NoDup_seq]. intros a b _ _. apply Hinj. }
  assert (Hlen : size (list_to_set (C:=gset Path) (cand <$> seq i n)) = n).
  { by rewrite size_list_to_set, length_fmap, length_seq. }
  rewrite <- Hlen at 1. rewrite <- (size_dom (D:=gset Path)).
  apply subseteq_size. intros p Hp.
  apply elem_of_list_to_set, list_elem_of_fmap in Hp as (k & -> & Hk).
  apply elem_of_seq in Hk. apply elem_of_dom.
  specialize (Hocc k Hk). unfold fs_exists in Hocc.
  by destruct (fs !! cand k).
Qed.

Lemma unique_loop_free (fs : FS) (cand : nat → Path) :
  (∀ a b, cand a = cand b → a = b) →
  ∃ n, unique_loop fs cand (size fs) 1 = cand n ∧ 1 ≤ n ∧
       (∀ k, 1 ≤ k < n → fs_exists fs (cand k) = true) ∧
       fs_exists fs (cand n) = false.
Proof.
  intros Hinj.
  destruct (unique_loop_first fs cand (size fs) 1) as (n & Hn & Hle & Hocc & Hfree).
  exists n. split_and!; [done | lia | done |].
  destruct (decide (n < 1 + size fs)) as [? | Hge]; [by apply Hfree|].
  destruct (fs_exists fs (cand n)) eqn:Hex; [|done].
  assert (S (size fs) ≤ size fs); [|lia].
  apply (occupied_bound fs cand 1); [done|].
  intros k Hk. destruct (decide (k = n)) as [-> | ?]; [done|].
  apply Hocc. lia.
Qed.

Lemma unique_file_path_spec (fs : FS) (dest : Path) :
  fs_exists fs (unique_file_path fs dest) = false ∧
  (fs_exists fs dest = false → unique_file_path fs dest = dest) ∧
  (fs_exists fs dest = true →
     ∃ n, 1 ≤ n ∧ unique_file_path fs dest = file_candidate dest n ∧
          ∀ k, 1 ≤ k < n → fs_exists fs (file_candidate dest k) = true).
Proof.
  unfold unique_file_path.
  destruct (fs_exists fs dest) eqn:Hdest; simpl.
  - destruct (unique_loop_free fs (file_candidate dest))
      as (n & Hn & Hle & Hocc & Hfree); [apply file_candidate_inj|].
    rewrite Hn. split_and!; [done | done |].
    intros _. exists n. split_and!; done.
  - split_and!; [done | done | done].
Qed.

Lemma unique_file_path_free (fs : FS) (dest : Path) :
  fs_exists fs (unique_file_path fs dest) = false.
Proof. apply unique_file_path_spec. Qed.

(** C5. [get_unique_file_path] returns the candidate itself when nothing
    exists at it; otherwise it returns ["<stem> (n)<suffix>"] beside it for
    the least [n >= 1] at which nothing exists; in both cases nothing
    exists at the returned path.  The call only reads the file system. *)
Theorem get_unique_file_path_first_free (dest : Path) (w : World) :
  ∃ p, get_unique_file_path dest w
         = Ok p (set_calls (calls w ++ [call_get_unique_file_path dest]) w) ∧
       p = unique_file_path (fs w) dest ∧
       fs_exists (fs w) p = false ∧
       (fs_exists (fs w) dest = false → p = dest) ∧
       (fs_exists (fs w) dest = true →
          ∃ n, 1 ≤ n ∧
               p = parent dest // (stem dest +:+ " (" +:+ pretty n +:+ ")" +:+ suffix dest) ∧
               ∀ k, 1 ≤ k < n →
                 fs_exists (fs w)
                   (parent dest // (stem dest +:+ " (" +:+ pretty k +:+ ")" +:+ suffix dest))
                 = true).
Proof.
  exists (unique_file_path (fs w) dest).
  split; [reflexivity|]. split; [reflexivity|].
  apply unique_file_path_spec.
Qed.

Lemma get_unique_file_path_first_free_witness :
  ∃ p, get_unique_file_path (Path_of_string "/d/a.png") (initial_world png_fs [])
         = Ok p (set_calls [call_get_unique_file_path (Path_of_string "/d/a.png")]
                   (initial_world png_fs [])) ∧
       p = Path_of_string "/d/a (2).png" ∧
       fs_exists png_fs p = false.
Proof.
  destruct (get_unique_file_path_first_free (Path_of_string "/d/a.png")
              (initial_world png_fs [])) as (p & Hrun & Hp & Hfree & _).
  exists p. split; [exact Hrun|]. split; [|exact Hfree].
  rewrite Hp. vm_compute. reflexivity.
Defined.

(** ** Suffix and stem of the destination name *)

Lemma append_nil_l (t : string) : "" +:+ t = t.
Proof. reflexivity. Qed.

Lemma append_cons (c : ascii) (s t : string) :
  String c s +:+ t = String c (s +:+ t).
Proof. reflexivity. Qed.

Lemma rfind_dot_app (s t : string) :
  Str.rfind_dot (s +:+ t)
  = match Str.rfind_dot t with
    | Some i => Some (String.length s + i)
    | None => Str.rfind_dot s
    end.
Proof.
  induction s as [|c s IH]; rewrite ?append_nil_l, ?append_cons; simpl.
  - by destruct (Str.rfind_dot t).
  - rewrite IH. by destruct (Str.rfind_dot t).
Qed.

Lemma length_append (s t : string) :
  String.length (s +:+ t) = String.length s + String.length t.
Proof.
  induction s as [|c s IH]; rewrite ?append_nil_l, ?append_cons; simpl;
    [done | by rewrite IH].
Qed.

Lemma substring_all (s : string) : String.substring 0 (String.length s) s = s.
Proof. induction s as [|c s IH]; simpl; [done | by rewrite IH]. Qed.

Lemma substring_append_l (s t : string) :
  String.substring 0 (String.length s) (s +:+ t) = s.
Proof.
  induction s as [|c s IH]; rewrite ?append_nil_l, ?append_cons; simpl;
    [by destruct t | by rewrite IH].
Qed.

Lemma substring_append_r (s t : string) (n : nat) :
  String.substring (String.length s) n (s +:+ t) = String.substring 0 n t.
Proof.
  induction s as [|c s IH]; rewrite ?append_nil_l, ?append_cons; simpl;
    [done | by rewrite IH].
Qed.

Lemma append_assoc (s t u : string) : (s +:+ t) +:+ u = s +:+ t +:+ u.
Proof.
  induction s as [|c s IH]; rewrite ?append_nil_l, ?append_cons;
    [done | by rewrite IH].
Qed.

(** A name ["<s>.<ext>"] with [s] non-empty and [ext] non-empty and free
    of dots has suffix [".<ext>"] and stem [s]. *)
Lemma suffix_stem_joinpath (p : Path) (s ext : string) :
  s ≠ "" → ext ≠ "" → Str.rfind_dot ext = None →
  suffix (p // (s +:+ "." +:+ ext)) = "." +:+ ext ∧
  stem (p // (s +:+ "." +:+ ext)) = s.
Proof.
  intros Hs Hext Hdot. unfold suffix, stem. rewrite name_joinpath.
  change ("." +:+ ext) with (String "." ext).
  rewrite rfind_dot_app. simpl Str.rfind_dot. rewrite Hdot.
  change (Ascii.eqb "." ".") with true. cbv iota.
  rewrite Nat.add_0_r, length_append. simpl String.length.
  assert (0 < String.length s) by (destruct s; [done | simpl; lia]).
  assert (0 < String.length ext) by (destruct ext; [done | simpl; lia]).
  replace (0 <? String.length s) with true by (symmetry; apply Nat.ltb_lt; lia).
  replace (String.length s <? String.length s + S (String.length ext) - 1)
    with true by (symmetry; apply Nat.ltb_lt; lia).
  simpl. split.
  - rewrite substring_append_r.
    replace (String.length s + S (String.length ext) - String.length s)
      with (String.length (String "." ext)) by (simpl; lia).
    apply substring_all.
  - apply substring_append_l.
Qed.

Lemma suffix_unique_file_path (fs : FS) (p : Path) (s ext : string) :
  s ≠ "" → ext ≠ "" → Str.rfind_dot ext = None →
  suffix (unique_file_path fs (p // (s +:+ "." +:+ ext))) = "." +:+ ext.
Proof.
  intros Hs Hext Hdot.
  destruct (suffix_stem_joinpath p s ext Hs Hext Hdot) as [Hsuf Hstem].
  destruct (unique_file_path_spec fs (p // (s +:+ "." +:+ ext)))
    as (_ & Hfree & Hocc).
  destruct (fs_exists fs (p // (s +:+ "." +:+ ext))); [|by rewrite Hfree].
  destruct Hocc as (n & _ & -> & _); [done|].
  unfold file_candidate. rewrite Hsuf, Hstem.
  rewrite <- (append_assoc " (" (pretty n) (")" +:+ "." +:+ ext)).
  rewrite <- (append_assoc (" (" +:+ pretty n) ")" ("." +:+ ext)).
  rewrite <- (append_assoc s _ ("." +:+ ext)).
  apply suffix_stem_joinpath; [|done..].
  destruct s; [done|]. by rewrite append_cons.
Qed.

(** A classified file has a non-empty stem. *)
Lemma detect_type_stem (f : Path) (k : MediaKind) :
  detect_type f = Some k → stem f ≠ "".
Proof.
  unfold detect_type, suffix, stem.
  destruct (Str.rfind_dot (name f)) as [i|]; [|done].
  destruct ((0 <? i) && (i <? String.length (name f) - 1)) eqn:Hi; [|done].
  intros _ Hstem. apply andb_true_iff in Hi as [H0%Nat.ltb_lt Hi%Nat.ltb_lt].
  assert (Hlen : ∀ (s : string) n, n ≤ String.length s →
            String.length (String.substring 0 n s) = n).
  { induction s as [|c s IH]; intros [|n] Hn; simpl in *; try done; try lia.
    rewrite IH; lia. }
  specialize (Hlen (name f) i ltac:(lia)). rewrite Hstem in Hlen. simpl in Hlen. lia.
Qed.

(** For a video source and an audio target extension the destination never
    has the source's suffix, so the copy is not taken. *)
Lemma video_to_audio_suffix_differs (fs : FS) (out_dir f : Path) (ext : string) :
  detect_type f = Some video → ext ∈ AUDIO_CHOICES →
  Str.lower (suffix f)
  ≠ Str.lower (suffix (unique_file_path fs (out_dir // (stem f +:+ "." +:+ ext)))).
Proof.
  intros Hf Hext.
  assert (Hprops : ext ≠ "" ∧ Str.rfind_dot ext = None
                   ∧ Str.lower ("." +:+ ext) ∈ AUDIO_EXTS).
  { unfold AUDIO_CHOICES in Hext.
    repeat (apply elem_of_cons in Hext as [-> | Hext];
            [split_and!; [done | done | apply mem_spec; reflexivity]|]).
    by apply elem_of_nil in Hext. }
  destruct Hprops as (Hne & Hdot & Haudio).
  rewrite suffix_unique_file_path; [|by eapply detect_type_stem | done | done].
  intros Heq. rewrite <- Heq in Haudio.
  destruct (detect_type_cases f) as [[Hv _] | [(_ & _ & Hk) | [(_ & _ & _ & Hk) | (_ & _ & _ & Hk)]]];
    [|congruence..].
  destruct (exts_disjoint (Str.lower (suffix f))) as (Hva & _).
  apply Hva. by split.
Qed.

(** ** The report *)

Arguments pretty : simpl never.
Arguments String.append : simpl never.

(** Reduce the projections of an explicit world. *)
Ltac world_simpl :=
  cbn [set_summary set_correct_format_files set_failed_files set_skipped_files
       set_fs set_stdin set_stdout set_calls
       summary correct_format_files failed_files skipped_files fs stdin stdout
       calls converted copied skipped failed] in *.


Lemma bind_print {A} (s : string) (k : M A) (w : World) :
  (print s;; k) w = k (set_stdout (stdout w ++ [s]) w).
Proof. reflexivity. Qed.

Lemma bind_read {A B} (f : World → A) (k : A → M B) (w : World) :
  (x ← read f; k x) w = k (f w) w.
Proof. reflexivity. Qed.

Lemma bind_eq {A B} (m : M A) (k : A → M B) (w w' : World) (a : A) :
  m w = Ok a w' → (x ← m; k x) w = k a w'.
Proof. unfold bind. by intros ->. Qed.

Lemma print_lines (pre : string) (l : list string) (w : World) :
  for_each l (λ f, print (pre +:+ f)) w
  = Ok tt (set_stdout (stdout w ++ (String.append pre <$> l)) w).
Proof.
  revert w. induction l as [|x l IH]; intros w; simpl.
  - unfold ret. rewrite app_nil_r. by destruct w.
  - rewrite bind_print, IH. unfold set_stdout. simpl.
    by rewrite <- app_assoc.
Qed.

Lemma print_section (n : nat) (heading : string) (proj : World → list string)
    (w : World) :
  (∀ l w, proj (set_stdout l w) = proj w) →
  (if 0 <? n then
     print heading;; l ← read proj; for_each l (λ f, print ("    • " +:+ f))
   else ret tt) w
  = Ok tt (set_stdout (stdout w ++ report_section n heading (proj w)) w).
Proof.
  intros Hproj. unfold report_section. destruct (0 <? n).
  - rewrite bind_print, bind_read, print_lines, Hproj.
    unfold set_stdout. simpl. by rewrite <- app_assoc.
  - unfold ret. rewrite app_nil_r. by destruct w.
Qed.

Lemma print_summary_eq (w : World) :
  print_summary w = Ok tt (set_stdout (stdout w ++ report_lines (ledger w)) w).
Proof.
  destruct w as [s cf ff sf fs si so cs].
  unfold print_summary.
  rewrite bind_print, bind_read, bind_print, bind_read, bind_print. world_simpl.
  erewrite bind_eq; [|by apply (print_section _ _ correct_format_files)].
  world_simpl.
  rewrite bind_read, bind_print. world_simpl.
  erewrite bind_eq; [|by apply (print_section _ _ skipped_files)].
  world_simpl.
  rewrite bind_read, bind_print. world_simpl.
  erewrite bind_eq; [|by apply (print_section _ _ failed_files)].
  world_simpl.
  unfold report_lines, print, modify. cbn. by rewrite <- !app_assoc.
Qed.

(** C9. [print_summary] prints, after what was printed before, exactly the
    report: the four counts in the order converted, copied, skipped,
    failed, and under each of copied, skipped and failed whose count is
    above zero a heading followed by the recorded names in recording
    order.  The converted files have no list of names in the state, and the
    report shows their count only.  Nothing but the output changes. *)
Theorem print_summary_report (w : World) :
  print_summary w = Ok tt (set_stdout (stdout w ++ report_lines (ledger w)) w) ∧
  report_lines (ledger w) =
    [newline +:+ "==== SUMMARY ====";
     "Converted: " +:+ pretty (converted (summary w));
     "Copied (already correct format): " +:+ pretty (copied (summary w))]
    ++ (if decide (copied (summary w) = 0) then []
        else "  - Files already correct format:"
               :: (String.append "    • " <$> correct_format_files w))
    ++ ["Skipped: " +:+ pretty (skipped (summary w))]
    ++ (if decide (skipped (summary w) = 0) then []
        else "  - Skipped files:"
               :: (String.append "    • " <$> skipped_files w))
    ++ ["Failed: " +:+ pretty (failed (summary w))]
    ++ (if decide (failed (summary w) = 0) then []
        else "  - Failed files:"
               :: (String.append "    • " <$> failed_files w))
    ++ ["================="].
Proof.
  split; [apply print_summary_eq|].
  unfold report_lines, report_section. simpl.
  destruct (copied (summary w)) as [|c], (skipped (summary w)) as [|s],
    (failed (summary w)) as [|f]; reflexivity.
Qed.

(** ** Postconditions *)

Arguments Str.lower : simpl never.
Arguments Str.upper : simpl never.
Arguments suffix : simpl never.
Arguments stem : simpl never.
Arguments name : simpl never.
Arguments unique_file_path : simpl never.
Arguments detect_type : simpl never.
Arguments audio_codec_for_ext : simpl never.

Lemma post_ok {A} (m : M A) (w w' : World) (a : A) Q E :
  m w = Ok a w' → Q a w' → post m w Q E.
Proof. unfold post. by intros ->. Qed.

Lemma post_ret {A} (a : A) (w : World) (Q : A → World → Prop) E :
  Q a w → post (ret a) w Q E.
Proof. done. Qed.

Lemma post_bind {A B} (m : M A) (f : A → M B) (w : World) Q E :
  post m w (λ a w', post (f a) w' Q E) E → post (x ← m; f x) w Q E.
Proof. unfold post, bind. by destruct (m w). Qed.

Lemma post_weaken {A} (m : M A) (w : World) (Q Q' : A → World → Prop)
    (E E' : Exn → World → Prop) :
  post m w Q E →
  (∀ a w', Q a w' → Q' a w') → (∀ e w', E e w' → E' e w') →
  post m w Q' E'.
Proof. unfold post. destruct (m w); auto. Qed.



(** ** The transcode functions *)

Ltac destruct_world w :=
  destruct w as [[? ? ? ?] ? ? ? fsys ? ? ?].

Ltac case_lib :=
  match goal with
  | |- context [match ?fs !! ?p with _ => _ end] => destruct (fs !! p) as [[]|] eqn:?
  | |- context [match lib_VideoFileClip ?l ?p ?d with _ => _ end] =>
      destruct (lib_VideoFileClip l p d) eqn:?
  | |- context [match lib_AudioFileClip ?l ?p ?d with _ => _ end] =>
      destruct (lib_AudioFileClip l p d) eqn:?
  | |- context [match lib_Image_open ?l ?p ?d with _ => _ end] =>
      destruct (lib_Image_open l p d) eqn:?
  | |- context [match lib_Image_convert ?l ?d ?m with _ => _ end] =>
      destruct (lib_Image_convert l d m) eqn:?
  | |- context [match lib_write_videofile ?l ?d ?p ?c ?a with _ => _ end] =>
      destruct (lib_write_videofile l d p c a) as [|? []] eqn:?
  | |- context [match lib_write_audiofile ?l ?d ?p ?c with _ => _ end] =>
      destruct (lib_write_audiofile l d p c) as [|? []] eqn:?
  | |- context [match lib_Image_save ?l ?d ?m ?p with _ => _ end] =>
      destruct (lib_Image_save l d m p) as [|? []] eqn:?
  | |- context [match lib_copy2 ?l ?s ?d with _ => _ end] =>
      destruct (lib_copy2 l s d) eqn:?
  | |- context [if ?b then _ else _] => destruct b eqn:?
  end.

Ltac run_prog :=
  unfold post, write_videofile, write_audiofile, write_path, VideoFileClip,
    AudioFileClip, Image_open, Image_convert, Image_save, shutil_copy2;
  unfold_prog; world_simpl;
  repeat (case_lib; unfold write_path; unfold_prog; world_simpl).

Ltac solve_trace :=
  repeat match goal with
         | |- ∃ _, _ => eexists
         | |- _ ∧ _ => split
         end;
  try reflexivity;
  try (rewrite <- ?app_assoc; simpl; reflexivity);
  try (repeat constructor; fail).

Lemma convert_video_to_video_spec (lib : MediaLib) :
  transcode_spec video_to_video (convert_video_to_video lib).
Proof.
  intros f dest w. destruct_world w. unfold convert_video_to_video.
  run_prog.
  all: try (exists Converted); solve_trace.
Qed.

Lemma convert_video_to_audio_spec (lib : MediaLib) :
  transcode_spec video_to_audio (convert_video_to_audio lib).
Proof.
  intros f dest w. destruct_world w. unfold convert_video_to_audio.
  run_prog.
  all: first [ exists Skipped; solve_trace; fail
             | exists Converted; solve_trace; fail
             | solve_trace ].
Qed.

Lemma convert_audio_to_audio_spec (lib : MediaLib) :
  transcode_spec audio_to_audio (convert_audio_to_audio lib).
Proof.
  intros f dest w. destruct_world w. unfold convert_audio_to_audio.
  run_prog.
  all: try (exists Converted); solve_trace.
Qed.

Lemma convert_image_to_image_spec (lib : MediaLib) :
  transcode_spec image_to_image (convert_image_to_image lib).
Proof.
  intros f dest w. destruct_world w. unfold convert_image_to_image.
  run_prog.
  all: try (exists Converted); solve_trace.
Qed.

(** Inside [try]/[except] a transcode function no longer raises: its
    exception becomes a Failed outcome under the source's name. *)
Lemma guarded_spec (t : Transcoder) (conv : Path → Path → M unit) :
  transcode_spec t conv →
  transcode_spec t (guarded conv) ∧
  ∀ f dest w, post (guarded conv f dest) w (λ _ _, True) (λ _ _, False).
Proof.
  intros Hconv. split; intros f dest w; specialize (Hconv f dest w);
    unfold guarded, post, try_except in *.
  - destruct (conv f dest w) as [[] w' | e w']; [exact Hconv|].
    destruct Hconv as (libs & Hled & Hcalls & Hlibs).
    destruct_world w'. unfold_prog. world_simpl.
    exists Failed, libs. split_and!; [repeat constructor | | done | done].
    by rewrite <- Hled.
  - destruct (conv f dest w) as [[] w' | e w']; [done|].
    destruct_world w'. by unfold_prog.
Qed.

(** ** The copy short-circuit and the loop body *)

Lemma fs_is_dir_exists (fs : FS) (p : Path) :
  fs_exists fs p = false → fs_is_dir fs p = false.
Proof. unfold fs_exists, fs_is_dir. by destruct (fs !! p). Qed.

Lemma copy_same_format_spec (lib : MediaLib) (src dest : Path) (w : World) :
  let d := unique_file_path (fs w) dest in
  let pre := if fs_exists (fs w) dest then [call_get_unique_file_path dest] else [] in
  post (copy_same_format lib src dest) w
    (λ done w',
       if done then
         Str.lower (suffix src) = Str.lower (suffix dest) ∧
         ledger w' = record src (Copied d) (ledger w) ∧
         calls w' = calls w ++ pre ++ [call_copy2 src d] ∧
         stdout w' = stdout w ++ ["Copied (already correct format): " +:+ name src] ∧
         ∃ data, fs w !! src = Some (File data) ∧
                 fs w' = <[d := File data]> (fs w)
       else Str.lower (suffix src) ≠ Str.lower (suffix dest) ∧ w' = w)
    (λ e w',
       Str.lower (suffix src) = Str.lower (suffix dest) ∧
       ledger w' = ledger w ∧ fs w' = fs w ∧
       calls w' = calls w ++ pre ++ [call_copy2 src d]).
Proof.
  intros d pre.
  pose proof (unique_file_path_spec (fs w) dest) as (Hfree & Hsame & _).
  fold d in Hfree, Hsame. apply fs_is_dir_exists in Hfree as Hnodir.
  subst pre. destruct_world w. world_simpl.
  unfold post, copy_same_format.
  destruct (String.eqb_spec (Str.lower (suffix src)) (Str.lower (suffix dest)))
    as [Heq | Hne]; [|done].
  unfold shutil_copy2, get_unique_file_path. unfold_prog. world_simpl.
  destruct (fs_exists fsys dest) eqn:Hex.
  - unfold_prog. world_simpl. fold d.
    destruct (fsys !! src) as [[data| |]|] eqn:Hsrc; [|by rewrite <- app_assoc..].
    destruct (lib_copy2 lib src d) eqn:Hcopy; [by rewrite <- app_assoc|].
    rewrite Hnodir. world_simpl.
    split_and!; [done | done | by rewrite <- app_assoc | done | by exists data].
  - unfold_prog. world_simpl. rewrite Hsame in * by done.
    destruct (fsys !! src) as [[data| |]|] eqn:Hsrc; [|done..].
    destruct (lib_copy2 lib src dest) eqn:Hcopy; [done|].
    rewrite Hnodir. world_simpl.
    split_and!; [done | done | done | done | by exists data].
Qed.

Lemma get_unique_file_path_eq (dest : Path) (w : World) :
  get_unique_file_path dest w
  = Ok (unique_file_path (fs w) dest)
       (set_calls (calls w ++ [call_get_unique_file_path dest]) w).
Proof. reflexivity. Qed.

Lemma per_file_spec (lib : MediaLib) (t : Transcoder)
    (conv : Path → Path → M unit) (out_dir : Path) (ext : string)
    (f : Path) (w : World) :
  transcode_spec t conv →
  post (per_file lib out_dir ext conv f) w
    (λ _ w', ∃ o, file_step t out_dir ext f w w' (Some o))
    (λ _ w', file_step t out_dir ext f w w' None).
Proof.
  intros Hconv. unfold per_file.
  set (req := out_dir // (stem f +:+ "." +:+ ext)).
  apply post_bind. eapply post_ok; [apply get_unique_file_path_eq|].
  set (dest := unique_file_path (fs w) req).
  set (w1 := set_calls _ w).
  assert (Hfs : fs w1 = fs w) by by destruct w.
  assert (Hled : ledger w1 = ledger w) by by destruct w.
  assert (Hcalls : calls w1 = calls w ++ [call_get_unique_file_path req])
    by by destruct w.
  clearbody w1.
  pose proof (unique_file_path_spec (fs w) req) as (Hfree & _).
  fold dest in Hfree.
  pose proof (unique_file_path_spec (fs w) dest) as (_ & Hsame & _).
  specialize (Hsame Hfree).
  apply post_bind.
  eapply post_weaken; [apply copy_same_format_spec | |]; cbv beta.
  - intros [] w2.
    + rewrite Hfs, Hsame, Hfree, Hled, Hcalls, <- app_assoc.
      intros (Heq & Hled2 & Hcalls2 & _).
      apply post_ret. exists (Copied dest). by apply step_copied.
    + intros [Hne ->].
      eapply post_weaken; [apply Hconv | |]; cbv beta.
      * intros _ w3 (o & libs & Ho & Hled3 & Hcalls3 & Hlibs).
        exists o. apply (step_transcoded _ _ _ _ _ _ o libs); try done.
        -- by rewrite Hcalls3, Hcalls, <- app_assoc.
        -- by rewrite Hled3, Hled.
      * intros _ w3 (libs & Hled3 & Hcalls3 & Hlibs).
        apply (step_transcode_raised _ _ _ _ _ _ libs); try done.
        -- by rewrite Hcalls3, Hcalls, <- app_assoc.
        -- by rewrite Hled3, Hled.
  - intros e w2. rewrite Hfs, Hsame, Hfree, Hled, Hcalls, <- app_assoc.
    intros (Heq & Hled2 & _ & Hcalls2).
    by apply step_copy_raised.
Qed.

Lemma for_each_batch (lib : MediaLib) (t : Transcoder)
    (conv : Path → Path → M unit) (out_dir : Path) (ext : string)
    (files : list Path) (w : World) :
  transcode_spec t conv →
  post (for_each files (per_file lib out_dir ext conv)) w
    (λ _ w', ∃ outs, batch_steps t out_dir ext files w w' outs)
    (λ _ _, True).
Proof.
  intros Hconv. revert w. induction files as [|f files IH]; intros w; simpl.
  - apply post_ret. exists []. constructor.
  - apply post_bind.
    eapply post_weaken; [by apply per_file_spec | | done]; cbv beta.
    intros _ w1 [o Hstep].
    eapply post_weaken; [apply IH | | done]; cbv beta.
    intros _ w' [outs Hsteps]. exists (o :: outs). by econstructor.
Qed.

(** ** Consequences of a finished loop *)


Lemma record_all_app (fos1 fos2 : list (Path * Outcome)) (L : Ledger) :
  record_all (fos1 ++ fos2) L = record_all fos2 (record_all fos1 L).
Proof. apply foldl_app. Qed.







Lemma file_step_ledger t out_dir ext f w w' o :
  file_step t out_dir ext f w w' (Some o) → ledger w' = record f o (ledger w).
Proof. by inversion 1. Qed.

Lemma batch_steps_ledger t out_dir ext files w w' outs :
  batch_steps t out_dir ext files w w' outs →
  length outs = length files ∧
  ledger w' = record_all (zip files outs) (ledger w).
Proof.
  induction 1 as [w | f files o outs w w1 w' Hstep _ [IHlen IHled]]; [done|].
  split; [simpl; by rewrite IHlen|].
  rewrite IHled. simpl. unfold record_all. simpl.
  by rewrite (file_step_ledger _ _ _ _ _ _ _ Hstep).
Qed.


Lemma prompted_trans cs1 cs2 w w1 w2 :
  prompted cs1 w w1 → prompted cs2 w1 w2 → prompted (cs1 ++ cs2) w w2.
Proof.
  intros (Hl1 & Hf1 & Hc1) (Hl2 & Hf2 & Hc2).
  split_and!; [congruence | congruence | by rewrite Hc2, Hc1, <- app_assoc].
Qed.

Lemma group_run_ledger out_dir k flist w w' outs :
  group_run out_dir k flist w w' outs →
  length outs = length flist ∧
  ledger w' = record_all (zip flist outs) (ledger w).
Proof.
  intros [t ext w1 _ (Hl & _ & _) Hsteps].
  apply batch_steps_ledger in Hsteps as [Hlen Hled]. by rewrite Hled, Hl.
Qed.




(** ** Prompts *)

Lemma prompted_refl (w : World) : prompted [] w w.
Proof. split_and!; [done | done | by rewrite app_nil_r]. Qed.

Lemma quiet_ret {A} (a : A) : quiet (ret a).
Proof. intros w. apply prompted_refl. Qed.

Lemma quiet_raise {A} (e : Exn) : quiet (raise (A:=A) e).
Proof. intros w. apply prompted_refl. Qed.

Lemma quiet_read {A} (f : World → A) : quiet (read f).
Proof. intros w. apply prompted_refl. Qed.

Lemma quiet_print (s : string) : quiet (print s).
Proof.
  intros w. destruct w. unfold post, prompted; simpl.
  by rewrite app_nil_r.
Qed.

Lemma quiet_set_stdin (l : list string) : quiet (modify (set_stdin l)).
Proof.
  intros w. destruct w. unfold post, prompted; simpl.
  by rewrite app_nil_r.
Qed.

Lemma quiet_bind {A B} (m : M A) (f : A → M B) :
  quiet m → (∀ a, quiet (f a)) → quiet (x ← m; f x).
Proof.
  intros Hm Hf w. apply post_bind.
  eapply post_weaken; [apply Hm | |]; cbv beta.
  - intros a w1 H1. eapply post_weaken; [apply Hf | |]; cbv beta;
      intros ? w2 H2; apply (prompted_trans [] [] _ _ _ H1 H2).
  - done.
Qed.

Lemma quiet_input_loop {A} (pre : M unit) (prompt : string)
    (body : string → M (option A)) (lines : list string) :
  quiet pre → (∀ line, quiet (body line)) →
  quiet (input_loop pre prompt body lines).
Proof.
  intros Hpre Hbody. induction lines as [|line rest IH]; simpl.
  - apply quiet_bind; [apply Hpre | intros _].
    apply quiet_bind; [apply quiet_print | intros _].
    apply quiet_raise.
  - apply quiet_bind; [apply Hpre | intros _].
    apply quiet_bind; [apply quiet_print | intros _].
    apply quiet_bind; [apply quiet_set_stdin | intros _].
    apply quiet_bind; [apply Hbody|]. intros [a|]; [apply quiet_ret | apply IH].
Qed.

Lemma quiet_while_input {A} (pre : M unit) (prompt : string)
    (body : string → M (option A)) :
  quiet pre → (∀ line, quiet (body line)) → quiet (while_input pre prompt body).
Proof.
  intros Hpre Hbody. apply quiet_bind; [apply quiet_read|].
  intros lines. by apply quiet_input_loop.
Qed.

Ltac quiet_step :=
  first [ apply quiet_ret | apply quiet_raise | apply quiet_print
        | apply quiet_read | apply quiet_set_stdin
        | apply quiet_while_input
        | apply quiet_bind
        | match goal with |- quiet (if ?b then _ else _) => destruct b end
        | match goal with |- quiet (match ?x with _ => _ end) => destruct x end
        | match goal with |- ∀ _, quiet _ => intros ? end ].





Lemma logged_prompt {A} (c : Call) (m : M A) (w : World) :
  quiet m →
  post (log c;; m) w (λ _ w', prompted [c] w w') (λ _ w', prompted [c] w w').
Proof.
  intros Hm. apply post_bind. unfold log, modify, post at 1.
  set (w1 := set_calls _ w).
  assert (H1 : prompted [c] w w1) by by destruct w.
  clearbody w1.
  eapply post_weaken; [apply Hm | |]; cbv beta; intros ? w2 H2;
    apply (prompted_trans [c] [] _ _ _ H1 H2).
Qed.

Lemma choose_conversion_for_video_prompted (w : World) :
  post choose_conversion_for_video w
    (λ _ w', prompted [call_choose_conversion_for_video] w w')
    (λ _ w', prompted [call_choose_conversion_for_video] w w').
Proof.
  unfold choose_conversion_for_video. apply logged_prompt. repeat quiet_step.
Qed.

Lemma choose_extension_prompted (ftype : MediaKind) (w : World) :
  post (choose_extension ftype) w
    (λ _ w', prompted [call_choose_extension ftype] w w')
    (λ _ w', prompted [call_choose_extension ftype] w w').
Proof.
  unfold choose_extension. apply logged_prompt. destruct ftype; repeat quiet_step.
Qed.

(** ** Kind groups *)

Lemma intent_then_batch (lib : MediaLib) (t : Transcoder)
    (conv : Path → Path → M unit) (out_dir : Path) (files : list Path)
    (k0 : MediaKind) (pre : list Call) (w0 w : World) :
  prompted pre w0 w →
  pre ++ [call_choose_extension k0] = intent_calls t →
  transcode_spec t conv →
  post (ext ← choose_extension k0; for_each files (per_file lib out_dir ext conv)) w
    (λ _ w', ∃ outs, group_run out_dir (transcoder_kind t) files w0 w' outs)
    (λ _ _, True).
Proof.
  intros Hpre Hintent Hconv. apply post_bind.
  eapply post_weaken; [apply choose_extension_prompted | | done]; cbv beta.
  intros ext w1 H1.
  eapply post_weaken; [by apply for_each_batch | | done]; cbv beta.
  intros _ w' [outs Hsteps]. exists outs.
  apply (group_intent _ _ _ _ _ _ t ext w1); [done | | done].
  rewrite <- Hintent. by eapply prompted_trans.
Qed.

Lemma convert_all_same_type_run (lib : MediaLib) (k : MediaKind)
    (files : list Path) (out_dir : Path) (w : World) :
  post (convert_all_same_type lib k files out_dir) w
    (λ _ w', ∃ outs, group_run out_dir k files w w' outs) (λ _ _, True).
Proof.
  destruct k; unfold convert_all_same_type.
  - apply post_bind.
    eapply post_weaken; [apply choose_conversion_for_video_prompted | | done].
    cbv beta. intros choice w1 H1. destruct (String.eqb choice "1").
    + apply (intent_then_batch lib video_to_video
               (guarded (convert_video_to_video lib)) _ _ video _ _ _ H1 eq_refl).
      apply guarded_spec, convert_video_to_video_spec.
    + apply (intent_then_batch lib video_to_audio
               (guarded (convert_video_to_audio lib)) _ _ audio _ _ _ H1 eq_refl).
      apply guarded_spec, convert_video_to_audio_spec.
  - apply (intent_then_batch lib audio_to_audio
             (guarded (convert_audio_to_audio lib)) _ _ audio [] _ _
             (prompted_refl w) eq_refl).
    apply guarded_spec, convert_audio_to_audio_spec.
  - apply (intent_then_batch lib image_to_image
             (guarded (convert_image_to_image lib)) _ _ image [] _ _
             (prompted_refl w) eq_refl).
    apply guarded_spec, convert_image_to_image_spec.
Qed.

Lemma convert_group_run (lib : MediaLib) (out_dir : Path) (k : MediaKind)
    (flist : list Path) (w : World) :
  post (convert_group lib out_dir (k, flist)) w
    (λ _ w', ∃ outs, group_run out_dir k flist w w' outs) (λ _ _, True).
Proof.
  unfold convert_group. apply post_bind.
  pose proof (quiet_print (newline +:+ Str.upper (kind_str k) +:+ " files found: "
                             +:+ pretty (length flist)) w) as Hp.
  eapply post_weaken; [apply Hp | | done]; cbv beta. clear Hp.
  intros _ w0 H0. destruct k.
  - apply post_bind.
    eapply post_weaken; [apply choose_conversion_for_video_prompted | | done].
    cbv beta. intros choice w1 H1.
    pose proof (prompted_trans _ _ _ _ _ H0 H1) as H01.
    destruct (String.eqb choice "1").
    + apply (intent_then_batch lib video_to_video
               (convert_video_to_video lib) _ _ video _ _ _ H01 eq_refl).
      apply convert_video_to_video_spec.
    + apply (intent_then_batch lib video_to_audio
               (convert_video_to_audio lib) _ _ audio _ _ _ H01 eq_refl).
      apply convert_video_to_audio_spec.
  - apply (intent_then_batch lib audio_to_audio
             (convert_audio_to_audio lib) _ _ audio [] _ _ H0 eq_refl).
    apply convert_audio_to_audio_spec.
  - apply (intent_then_batch lib image_to_image
             (convert_image_to_image lib) _ _ image [] _ _ H0 eq_refl).
    apply convert_image_to_image_spec.
Qed.

Lemma for_each_groups (lib : MediaLib) (out_dir : Path)
    (groups : list (MediaKind * list Path)) (w : World) :
  post (for_each groups (convert_group lib out_dir)) w
    (λ _ w', ∃ fos, groups_run out_dir groups w w' fos) (λ _ _, True).
Proof.
  revert w. induction groups as [|[k flist] groups IH]; intros w; simpl.
  - apply post_ret. exists []. constructor.
  - apply post_bind.
    eapply post_weaken; [apply convert_group_run | | done]; cbv beta.
    intros _ w1 [outs Hgroup].
    eapply post_weaken; [apply IH | | done]; cbv beta.
    intros _ w' [fos Hgroups]. eexists. by econstructor.
Qed.

(** ** Folders *)

Lemma files_of_kind_cons (k : option MediaKind) (f : Path) (files : list Path) :
  files_of_kind k (f :: files)
  = if decide (detect_type f = k) then f :: files_of_kind k files
    else files_of_kind k files.
Proof.
  unfold files_of_kind. simpl.
  destruct (decide (detect_type f = k));
    [by rewrite bool_decide_true | by rewrite bool_decide_false].
Qed.

Lemma for_fold_cons {A S} (body : S → A → M S) (x : A) (l : list A) (s s' : S)
    (w w1 : World) :
  body s x w = Ok s' w1 →
  for_fold (x :: l) s body w = for_fold l s' body w1.
Proof. intros H. simpl. unfold bind. by rewrite H. Qed.

Lemma classify_files_from (files : list Path) (vs aus ims : list Path) (w : World) :
  ∃ w', for_fold files [(video, vs); (audio, aus); (image, ims)]
          (λ types f,
             match detect_type f with
             | Some ftype => ret (types_append types ftype f)
             | None =>
                 append_skipped_files (name f);;
                 print ("Skipped (unsupported type): " +:+ name f);;
                 incr_skipped;;
                 ret types
             end) w
        = Ok [(video, vs ++ files_of_kind (Some video) files);
              (audio, aus ++ files_of_kind (Some audio) files);
              (image, ims ++ files_of_kind (Some image) files)] w' ∧
        ledger w' = record_all (skips files) (ledger w) ∧
        fs w' = fs w ∧ calls w' = calls w.
Proof.
  revert vs aus ims w. induction files as [|f files IH]; intros vs aus ims w.
  - exists w. simpl. unfold files_of_kind. simpl. by rewrite !app_nil_r.
  - unfold skips. rewrite !files_of_kind_cons.
    destruct (detect_type f) as [[]|] eqn:Hf; repeat case_decide; simplify_eq.
    + destruct (IH (vs ++ [f]) aus ims w) as (w' & Hrun & Hled & Hfs & Hcalls).
      exists w'. erewrite for_fold_cons; [|by rewrite Hf].
      rewrite <- !app_assoc in Hrun. done.
    + destruct (IH vs (aus ++ [f]) ims w) as (w' & Hrun & Hled & Hfs & Hcalls).
      exists w'. erewrite for_fold_cons; [|by rewrite Hf].
      rewrite <- !app_assoc in Hrun. done.
    + destruct (IH vs aus (ims ++ [f]) w) as (w' & Hrun & Hled & Hfs & Hcalls).
      exists w'. erewrite for_fold_cons; [|by rewrite Hf].
      rewrite <- !app_assoc in Hrun. done.
    + set (w1 := set_summary
                   (mkSummary (converted (summary w)) (copied (summary w))
                      (S (skipped (summary w))) (failed (summary w)))
                   (set_stdout (stdout w ++ ["Skipped (unsupported type): " +:+ name f])
                      (set_skipped_files (skipped_files w ++ [name f]) w))).
      destruct (IH vs aus ims w1) as (w' & Hrun & Hled & Hfs & Hcalls).
      exists w'. erewrite for_fold_cons with (w1 := w1);
        [|rewrite Hf; by destruct w as [[] ? ? ? ? ? ? ?]].
      split_and!; [done | | |].
      * rewrite Hled. by destruct w as [[] ? ? ? ? ? ? ?].
      * rewrite Hfs. by destruct w.
      * rewrite Hcalls. by destruct w.
Qed.

Lemma classify_files_spec (files : list Path) (w : World) :
  ∃ w', classify_files files w
        = Ok [(video, files_of_kind (Some video) files);
              (audio, files_of_kind (Some audio) files);
              (image, files_of_kind (Some image) files)] w' ∧
        ledger w' = record_all (skips files) (ledger w) ∧
        fs w' = fs w ∧ calls w' = calls w.
Proof. apply (classify_files_from files [] [] []). Qed.

Lemma group_run_prefix out_dir k flist w0 w w' outs :
  prompted [] w0 w →
  group_run out_dir k flist w w' outs → group_run out_dir k flist w0 w' outs.
Proof.
  intros H0 [t ext w1 Hk Hp Hsteps].
  apply (group_intent _ _ _ _ _ _ t ext w1); [done | | done].
  apply (prompted_trans [] _ _ _ _ H0 Hp).
Qed.

Lemma convert_folder_run (lib : MediaLib) (folder out_dir : Path) (w : World) :
  post (convert_folder lib folder out_dir) w
    (λ _ w', ∃ fos,
       folder_run out_dir
         (List.filter (fs_is_file (fs w)) (fs_children (fs w) folder)) w w' fos)
    (λ _ _, True).
Proof.
  unfold convert_folder. apply post_bind.
  unfold folder_files, iterdir, post at 1, bind at 1.
  destruct (fs_is_dir (fs w) folder); [|done].
  unfold bind, read, ret. cbv beta iota.
  set (files := List.filter (fs_is_file (fs w)) (fs_children (fs w) folder)).
  destruct (classify_files_spec files w) as (w1 & Hrun & Hled & Hfs & Hcalls).
  apply post_bind. eapply post_ok; [exact Hrun|].
  fold (kind_groups files).
  destruct (kind_groups files) as [|[k flist] [|g groups]] eqn:Hgroups.
  - apply (post_bind (print _)).
    eapply post_weaken; [apply (quiet_print _ w1) | | done]; cbv beta.
    intros ? w2 (Hl2 & Hf2 & Hc2). apply post_ret.
    exists [], w2. rewrite Hgroups.
    split_and!; [congruence | congruence | | constructor].
    by rewrite Hc2, app_nil_r.
  - apply (post_bind (print _)).
    eapply post_weaken; [apply (quiet_print _ w1) | | done]; cbv beta.
    intros ? w2 H2.
    eapply post_weaken; [apply convert_all_same_type_run | | done]; cbv beta.
    intros ? w' [outs Hgroup].
    exists (zip flist outs ++ []), w1. rewrite Hgroups.
    split_and!; [done | done | done |].
    econstructor; [|constructor]. by eapply group_run_prefix.
  - apply (post_bind (print _)).
    eapply post_weaken; [apply (quiet_print _ w1) | | done]; cbv beta.
    intros ? w2 (Hl2 & Hf2 & Hc2).
    eapply post_weaken; [apply for_each_groups | | done]; cbv beta.
    intros ? w' [fos Hgroups']. exists fos, w2. rewrite Hgroups.
    split_and!; [congruence | congruence | | done].
    by rewrite Hc2, app_nil_r.
Qed.

(** The ledger and the calls of a sequence of groups run to the end. *)
Lemma groups_run_ledger out_dir groups w w' fos :
  groups_run out_dir groups w w' fos →
  fos.*1 = concat (snd <$> groups) ∧
  ledger w' = record_all fos (ledger w).
Proof.
  induction 1 as [w | k flist groups outs fos w w1 w' Hgroup _ [IHf IHl]]; [done|].
  apply group_run_ledger in Hgroup as [Hlen Hled].
  split.
  - rewrite fmap_app, IHf. simpl. f_equal. by apply fst_zip; lia.
  - by rewrite record_all_app, <- Hled.
Qed.


Lemma kind_groups_concat (files : list Path) :
  concat (snd <$> kind_groups files)
  = files_of_kind (Some video) files ++ files_of_kind (Some audio) files
    ++ files_of_kind (Some image) files.
Proof.
  unfold kind_groups.
  destruct (files_of_kind (Some video) files), (files_of_kind (Some audio) files),
    (files_of_kind (Some image) files); simpl; by rewrite ?app_nil_r.
Qed.

Lemma files_partition (files : list Path) :
  files_of_kind None files ++ files_of_kind (Some video) files
    ++ files_of_kind (Some audio) files ++ files_of_kind (Some image) files
  ≡ₚ files.
Proof.
  induction files as [|f files IH]; [done|].
  rewrite !files_of_kind_cons.
  destruct (detect_type f) as [[]|] eqn:Hf; repeat case_decide; simplify_eq.
  all: simpl; rewrite <- ?Permutation_middle; by constructor.
Qed.

Lemma skips_files (files : list Path) : (skips files).*1 = files_of_kind None files.
Proof.
  unfold skips. rewrite <- list_fmap_compose. apply list_fmap_id.
Qed.

(** A folder run to the end records exactly one outcome per regular file
    of the listing. *)
Lemma folder_run_ledger out_dir files w w' fos :
  folder_run out_dir files w w' fos →
  (skips files ++ fos).*1 ≡ₚ files ∧
  ledger w' = record_all (skips files ++ fos) (ledger w).
Proof.
  intros (w1 & Hl1 & _ & _ & Hgroups).
  apply groups_run_ledger in Hgroups as [Hf Hl]. split.
  - rewrite fmap_app, skips_files, Hf, kind_groups_concat. apply files_partition.
  - by rewrite record_all_app, <- Hl1.
Qed.



(** ** Single files and whole runs *)

Lemma file_step_raised_ledger t out_dir ext f w w' :
  file_step t out_dir ext f w w' None → ledger w' = ledger w.
Proof. by inversion 1. Qed.

Lemma prompt_then_file (lib : MediaLib) (t : Transcoder)
    (conv : Path → Path → M unit) (out_dir : Path) (f : Path)
    (k0 : MediaKind) (w0 w : World) :
  ledger w = ledger w0 →
  transcode_spec t conv →
  post (ext ← choose_extension k0; per_file lib out_dir ext conv f) w
    (λ _ w', ∃ o, ledger w' = record f o (ledger w0))
    (λ _ w', ledger w' = ledger w0).
Proof.
  intros Hw Hconv. apply post_bind.
  eapply post_weaken; [apply choose_extension_prompted | |]; cbv beta.
  - intros ext w1 (Hl1 & _ & _).
    eapply post_weaken; [by apply per_file_spec | |]; cbv beta.
    + intros _ w' [o Hstep]. exists o.
      apply file_step_ledger in Hstep. congruence.
    + intros _ w' Hstep. apply file_step_raised_ledger in Hstep. congruence.
  - intros _ w1 (Hl1 & _ & _). congruence.
Qed.

(** A single file always ends with exactly one outcome recorded. *)
Lemma convert_single_file_run (lib : MediaLib) (src out_dir : Path) (w : World) :
  ∃ o w', convert_single_file lib src out_dir w = Ok tt w' ∧
          ledger w' = record src o (ledger w) ∧
          (detect_type src = None → o = Skipped).
Proof.
  unfold convert_single_file.
  destruct (detect_type src) as [k|] eqn:Hk.
  - assert (Hbody : ∀ (body : M unit) w1,
              ledger w1 = ledger w →
              post body w1 (λ _ w', ∃ o, ledger w' = record src o (ledger w))
                (λ _ w', ledger w' = ledger w) →
              ∃ o w', try_except body
                        (λ e, print ("Failed to convert " +:+ name src +:+ ": " +:+ e);;
                              incr_failed;; append_failed_files (name src)) w1
                      = Ok tt w' ∧ ledger w' = record src o (ledger w) ∧
                      (Some k = None → o = Skipped)).
    { intros body w1 Hw1 Hpost. unfold post, try_except in *.
      destruct (body w1) as [[] w' | e w'].
      - destruct Hpost as [o Ho]. by exists o, w'.
      - exists Failed. eexists. split; [reflexivity|]. split; [|done].
        rewrite <- Hpost. by destruct w' as [[] ? ? ? ? ? ? ?]. }
    unfold bind at 1, print at 1, modify at 1.
    set (w1 := set_stdout _ w).
    assert (Hw1 : ledger w1 = ledger w) by by destruct w.
    clearbody w1.
    apply Hbody; [done|]. clear Hbody.
    destruct k.
    + apply post_bind.
      eapply post_weaken; [apply choose_conversion_for_video_prompted | |];
        cbv beta.
      * intros choice w2 (Hl2 & _ & _). destruct (String.eqb choice "1").
        -- apply (prompt_then_file lib video_to_video (convert_video_to_video lib));
             [congruence | apply convert_video_to_video_spec].
        -- apply (prompt_then_file lib video_to_audio (convert_video_to_audio lib));
             [congruence | apply convert_video_to_audio_spec].
      * intros _ w2 (Hl2 & _ & _). congruence.
    + apply (prompt_then_file lib audio_to_audio (convert_audio_to_audio lib));
        [done | apply convert_audio_to_audio_spec].
    + apply (prompt_then_file lib image_to_image (convert_image_to_image lib));
        [done | apply convert_image_to_image_spec].
  - exists Skipped. eexists. split; [reflexivity|]. split; [|done].
    by destruct w as [[] ? ? ? ? ? ? ?].
Qed.


(** ** No transcode on equal extensions, on every path *)






Lemma silent_bind {A B} (m : M A) (f : A → M B) :
  silent m → (∀ a, silent (f a)) → silent (x ← m; f x).
Proof.
  intros Hm Hf w. apply post_bind.
  eapply post_weaken; [apply Hm | |]; cbv beta.
  - intros a w1 H1. eapply post_weaken; [apply Hf | |]; cbv beta;
      intros ? w2 H2; congruence.
  - done.
Qed.


Lemma silent_ret {A} (a : A) : silent (ret a).
Proof. by intros w. Qed.

Lemma silent_for_each {A} (body : A → M unit) (l : list A) :
  (∀ x, silent (body x)) → silent (for_each l body).
Proof.
  intros Hbody. induction l as [|x l IH]; simpl; [apply silent_ret|].
  apply silent_bind; [apply Hbody | intros _; apply IH].
Qed.
























(** ** The accounting invariant *)




(** ** Failure isolation *)

(** Inside [convert_all_same_type] and [convert_single_file] a transcode
    exception is caught: under [try]/[except] none of the four transcode
    functions raises, and a failure is recorded under the source's name. *)
Lemma guarded_transcode_never_raises (lib : MediaLib) (f dest : Path) (w : World) :
  post (guarded (convert_video_to_video lib) f dest) w (λ _ _, True) (λ _ _, False) ∧
  post (guarded (convert_video_to_audio lib) f dest) w (λ _ _, True) (λ _ _, False) ∧
  post (guarded (convert_audio_to_audio lib) f dest) w (λ _ _, True) (λ _ _, False) ∧
  post (guarded (convert_image_to_image lib) f dest) w (λ _ _, True) (λ _ _, False).
Proof.
  split_and!.
  - apply (guarded_spec video_to_video), convert_video_to_video_spec.
  - apply (guarded_spec video_to_audio), convert_video_to_audio_spec.
  - apply (guarded_spec audio_to_audio), convert_audio_to_audio_spec.
  - apply (guarded_spec image_to_image), convert_image_to_image_spec.
Qed.

(** The folder of one kind: the corrupt video is recorded as failed and
    the two other videos still get their outcome. *)
Lemma same_type_folder_isolates_failure :
  match convert_folder demo_lib (Path_of_string "/in") (Path_of_string "/out")
          (initial_world video_fs ["2"; "mp3"]) with
  | Ok _ w' =>
      summary w' = mkSummary 1 0 1 1 ∧
      failed_files w' = ["x.mp4"] ∧ skipped_files w' = ["s.mp4"] ∧
      omap alloc_request (calls w')
      = [Path_of_string "/out/x.mp3"; Path_of_string "/out/s.mp3";
         Path_of_string "/out/w.mp3"]
  | Raise _ _ => False
  end.
Proof. vm_compute. split_and!; reflexivity. Qed.

(** C1, where the code departs from it.  In a folder of several kinds the
    loops of [convert_folder] have no [try]: when the first video cannot be
    decoded, the exception leaves [convert_folder] and [main]; nothing is
    recorded as failed, the second video and the image are never
    attempted, and no summary is printed. *)
Theorem mixed_folder_transcode_error_aborts :
  match convert_folder demo_lib (Path_of_string "/in") (Path_of_string "/out")
          (initial_world mixed_fs ["1"; "avi"; "jpg"]) with
  | Raise e w' =>
      e = "bad video" ∧
      summary w' = mkSummary 0 0 1 0 ∧
      failed_files w' = [] ∧ skipped_files w' = ["z.txt"] ∧
      omap alloc_request (calls w') = [Path_of_string "/out/x.avi"] ∧
      length (examined_files mixed_fs (Path_of_string "/in")) = 4
  | Ok _ _ => False
  end ∧
  match main demo_lib (initial_world mixed_fs ["/in"; "/out"; "1"; "avi"; "jpg"]) with
  | Raise e w' =>
      e = "bad video" ∧ failed (summary w') = 0 ∧ failed_files w' = [] ∧
      (newline +:+ "==== SUMMARY ====") ∉ stdout w'
  | Ok _ _ => False
  end.
Proof.
  split.
  - vm_compute. split_and!; reflexivity.
  - vm_compute. split_and!; try reflexivity;
      intros H; repeat (apply elem_of_cons in H as [H | H]; [discriminate H|]);
      by apply elem_of_nil in H.
Qed.

(** ** The copy short-circuit *)




(** ** Intent once per kind group *)



(** ** Codec policy *)

(** C8.  [audio_codec_for_ext] is a fixed table on the dotted, lower-cased
    target extension.  [convert_video_to_video] on a decodable source asks
    the writer for VP9 with Opus when the lower-cased destination suffix is
    [.webm] and for H.264 with AAC otherwise, passing no audio codec when
    the clip has no audio track; it records Converted when the writer
    returns and raises only the writer's own exception.  The two
    audio-producing functions pass the table's codec for the destination
    suffix to the writer.  Neither the table nor the functions take a
    codec parameter. *)
Theorem codec_policy (lib : MediaLib) :
  audio_codec_for_ext ".mp3" = "libmp3lame" ∧
  audio_codec_for_ext ".wav" = "pcm_s16le" ∧
  audio_codec_for_ext ".m4a" = "aac" ∧
  audio_codec_for_ext ".flac" = "flac" ∧
  audio_codec_for_ext ".ogg" = "libvorbis" ∧
  (∀ src dest data has_audio w,
     fs w !! src = Some (File data) →
     lib_VideoFileClip lib src data = Returns has_audio →
     let webm := String.eqb (Str.lower (suffix dest)) ".webm" in
     let codec := if webm then "libvpx-vp9" else "libx264" in
     let audio_codec :=
       if has_audio then Some (if webm then "libopus" else "aac") else None in
     post (convert_video_to_video lib src dest) w
       (λ _ w',
          calls w' = calls w ++ [call_convert_video_to_video src dest;
                                 call_VideoFileClip src;
                                 call_write_videofile dest codec audio_codec] ∧
          ledger w' = record src Converted (ledger w) ∧
          ∃ out, lib_write_videofile lib data dest codec audio_codec = Written out ∧
                 fs w' = <[dest := File out]> (fs w))
       (λ e w',
          calls w' = calls w ++ [call_convert_video_to_video src dest;
                                 call_VideoFileClip src;
                                 call_write_videofile dest codec audio_codec] ∧
          ledger w' = ledger w ∧
          ∃ residue, lib_write_videofile lib data dest codec audio_codec
                     = WriteFailed e residue)) ∧
  (∀ src dest data w,
     fs w !! src = Some (File data) →
     lib_VideoFileClip lib src data = Returns true →
     post (convert_video_to_audio lib src dest) w
       (λ _ w', call_write_audiofile dest
                  (audio_codec_for_ext (Str.lower (suffix dest))) ∈ calls w')
       (λ _ w', call_write_audiofile dest
                  (audio_codec_for_ext (Str.lower (suffix dest))) ∈ calls w')) ∧
  (∀ src dest data w,
     fs w !! src = Some (File data) →
     lib_AudioFileClip lib src data = Returns tt →
     post (convert_audio_to_audio lib src dest) w
       (λ _ w', call_write_audiofile dest
                  (audio_codec_for_ext (Str.lower (suffix dest))) ∈ calls w')
       (λ _ w', call_write_audiofile dest
                  (audio_codec_for_ext (Str.lower (suffix dest))) ∈ calls w')).
Proof.
  split_and!; try reflexivity.
  - intros src dest data has_audio w Hsrc Hclip. cbv zeta.
    destruct_world w. world_simpl. unfold convert_video_to_video, post,
      write_videofile, write_path, VideoFileClip.
    unfold_prog. world_simpl. rewrite Hsrc, Hclip. world_simpl.
    destruct (String.eqb (Str.lower (suffix dest)) ".webm"), has_audio;
      world_simpl;
      match goal with
      | |- context [lib_write_videofile ?l ?d ?p ?c ?a] =>
          destruct (lib_write_videofile l d p c a) as [out | e [part|]] eqn:Hw
      end; unfold_prog; world_simpl;
      (split_and!; [by rewrite <- !app_assoc | done | by eexists]).
  - intros src dest data w Hsrc Hclip.
    destruct_world w. world_simpl. unfold convert_video_to_audio, post,
      write_audiofile, write_path, VideoFileClip.
    unfold_prog. world_simpl. rewrite Hsrc, Hclip.
    cbn [clip_audio clip_data negb]. world_simpl.
    match goal with
    | |- context [lib_write_audiofile ?l ?d ?p ?c] =>
        destruct (lib_write_audiofile l d p c) as [out | e [part|]]
    end; unfold_prog; world_simpl; apply elem_of_app; right; by apply list_elem_of_singleton.
  - intros src dest data w Hsrc Hclip.
    destruct_world w. world_simpl. unfold convert_audio_to_audio, post,
      write_audiofile, write_path, AudioFileClip.
    unfold_prog. world_simpl. rewrite Hsrc, Hclip.
    cbn [clip_audio clip_data negb]. world_simpl.
    match goal with
    | |- context [lib_write_audiofile ?l ?d ?p ?c] =>
        destruct (lib_write_audiofile l d p c) as [out | e [part|]]
    end; unfold_prog; world_simpl; apply elem_of_app; right; by apply list_elem_of_singleton.
Qed.

Lemma codec_policy_witness :
  ∃ w', convert_video_to_video demo_lib (Path_of_string "/in/s.mp4")
          (Path_of_string "/out/s.WebM") (initial_world video_fs []) = Ok tt w' ∧
        calls w' = [call_convert_video_to_video (Path_of_string "/in/s.mp4")
                      (Path_of_string "/out/s.WebM");
                    call_VideoFileClip (Path_of_string "/in/s.mp4");
                    call_write_videofile (Path_of_string "/out/s.WebM")
                      "libvpx-vp9" None] ∧
        converted (summary w') = 1.
Proof.
  destruct (codec_policy demo_lib) as (_ & _ & _ & _ & _ & Hvideo & _).
  specialize (Hvideo (Path_of_string "/in/s.mp4") (Path_of_string "/out/s.WebM")
                "silent" false (initial_world video_fs []) eq_refl eq_refl).
  unfold post in Hvideo.
  destruct (convert_video_to_video demo_lib _ _ _) as [[] w' | e w'].
  - destruct Hvideo as (Hcalls & Hled & _). exists w'.
    split_and!; [reflexivity | exact Hcalls |].
    exact (f_equal (λ L, converted (l_summary L)) Hled).
  - by destruct Hvideo as (_ & _ & residue & Hw).
Defined.

(** ** Recorded names *)

(** C10.  Recording an outcome appends the destination's name for a copy
    and the source's name for a skip or a failure ([record]), and the code
    updates the ledger only in this way: [copy_same_format] records the
    copy under the name of the path it wrote (the allocator's answer for
    its destination), [convert_video_to_audio] records a skip under the
    source's name, [convert_single_file] records exactly one outcome for
    its source (Skipped for an unsupported one, Failed when the [try] body
    raised), and a folder that ran to its end recorded one such outcome for
    each of its regular files. *)
Theorem recorded_names (lib : MediaLib) :
  (∀ f d L,
     l_copied (record f (Copied d) L) = l_copied L ++ [name d] ∧
     l_skipped (record f (Copied d) L) = l_skipped L ∧
     l_failed (record f (Copied d) L) = l_failed L ∧
     l_skipped (record f Skipped L) = l_skipped L ++ [name f] ∧
     l_copied (record f Skipped L) = l_copied L ∧
     l_failed (record f Skipped L) = l_failed L ∧
     l_failed (record f Failed L) = l_failed L ++ [name f] ∧
     l_copied (record f Failed L) = l_copied L ∧
     l_skipped (record f Failed L) = l_skipped L ∧
     l_copied (record f Converted L) = l_copied L ∧
     l_skipped (record f Converted L) = l_skipped L ∧
     l_failed (record f Converted L) = l_failed L) ∧
  (∀ src dest w,
     post (copy_same_format lib src dest) w
       (λ done w',
          if done then
            ledger w' = record src (Copied (unique_file_path (fs w) dest)) (ledger w) ∧
            fs w' !! unique_file_path (fs w) dest = fs w !! src ∧
            call_copy2 src (unique_file_path (fs w) dest) ∈ calls w'
          else ledger w' = ledger w)
       (λ _ w', ledger w' = ledger w)) ∧
  (∀ src dest w,
     post (convert_video_to_audio lib src dest) w
       (λ _ w', ledger w' = record src Converted (ledger w) ∨
                ledger w' = record src Skipped (ledger w))
       (λ _ w', ledger w' = ledger w)) ∧
  (∀ src out_dir w,
     ∃ o w', convert_single_file lib src out_dir w = Ok tt w' ∧
             ledger w' = record src o (ledger w) ∧
             (detect_type src = None → o = Skipped)) ∧
  (∀ folder out_dir w w',
     convert_folder lib folder out_dir w = Ok tt w' →
     ∃ fos, fos.*1 ≡ₚ List.filter (fs_is_file (fs w)) (fs_children (fs w) folder) ∧
            ledger w' = record_all fos (ledger w)).
Proof.
  split_and!.
  - intros f d L. by split_and!.
  - intros src dest w.
    eapply post_weaken; [apply copy_same_format_spec | |]; cbv beta.
    + intros [] w'; [|by intros [_ ->]].
      intros (_ & Hled & Hcalls & _ & data & Hsrc & Hfs).
      split_and!; [done | by rewrite Hfs, lookup_insert_eq |].
      rewrite Hcalls, !elem_of_app, list_elem_of_singleton. auto.
    + by intros _ w' (_ & Hled & _).
  - intros src dest w. destruct_world w. unfold convert_video_to_audio.
    run_prog; auto.
  - intros src out_dir w. apply convert_single_file_run.
  - intros folder out_dir w w' Hrun.
    pose proof (convert_folder_run lib folder out_dir w) as Hpost.
    unfold post in Hpost. rewrite Hrun in Hpost.
    destruct Hpost as [fos (Hperm & Hled)%folder_run_ledger].
    by eexists.
Qed.

Lemma recorded_names_witness :
  match convert_folder demo_lib (Path_of_string "/in") (Path_of_string "/out")
          (initial_world video_fs ["1"; "mp4"]) with
  | Ok _ w' =>
      correct_format_files w' = ["x.mp4"; "s.mp4"; "w (1).mp4"] ∧
      ∃ fos, fos.*1 ≡ₚ List.filter (fs_is_file video_fs)
                         (fs_children video_fs (Path_of_string "/in")) ∧
             ledger w' = record_all fos (ledger (initial_world video_fs ["1"; "mp4"]))
  | Raise _ _ => False
  end.
Proof.
  set (w0 := initial_world video_fs ["1"; "mp4"]).
  assert (Hnames : match convert_folder demo_lib (Path_of_string "/in")
                           (Path_of_string "/out") w0 with
                   | Ok _ w' => correct_format_files w' = ["x.mp4"; "s.mp4"; "w (1).mp4"]
                   | Raise _ _ => False
                   end) by (vm_compute; reflexivity).
  destruct (recorded_names demo_lib) as (_ & _ & _ & _ & Hfolder).
  specialize (Hfolder (Path_of_string "/in") (Path_of_string "/out") w0).
  destruct (convert_folder demo_lib _ _ w0) as [[] w' | e w']; [|exact Hnames].
  split; [exact Hnames|]. exact (Hfolder w' eq_refl).
Defined.

(** ** Video without audio *)

Lemma no_audio_run (lib : MediaLib) (src dest : Path) (data : string) (w : World) :
  fs w !! src = Some (File data) →
  lib_VideoFileClip lib src data = Returns false →
  ∃ w', convert_video_to_audio lib src dest w = Ok tt w' ∧
        ledger w' = record src Skipped (ledger w) ∧
        stdout w' = stdout w ++ ["Skipped (no audio): " +:+ name src] ∧
        calls w' = calls w ++ [call_convert_video_to_audio src dest;
                               call_VideoFileClip src] ∧
        fs w' = fs w.
Proof.
  intros Hsrc Hclip. destruct_world w. world_simpl.
  unfold convert_video_to_audio, VideoFileClip. unfold_prog. world_simpl.
  rewrite Hsrc, Hclip. cbn [clip_audio negb]. world_simpl.
  eexists. split; [reflexivity|]. world_simpl.
  split_and!; [done | done | by rewrite <- app_assoc | done].
Qed.

(** C4.  A video whose clip has no audio track, sent to audio extraction:
    [convert_video_to_audio] returns normally, records one Skipped outcome
    under the source's name, prints the no-audio reason, leaves the failed
    count and list alone, makes no writer call and leaves the file system
    as it was, so nothing exists at the destination that did not before.
    The same holds for the whole loop body at every call site (with or
    without [try]): for a source classified as video and an audio target
    extension the copy is never taken, so the outcome is Skipped. *)
Theorem convert_video_to_audio_no_audio (lib : MediaLib) (src : Path)
    (data : string) (w : World) :
  fs w !! src = Some (File data) →
  lib_VideoFileClip lib src data = Returns false →
  (∀ dest,
     ∃ w', convert_video_to_audio lib src dest w = Ok tt w' ∧
           ledger w' = record src Skipped (ledger w) ∧
           skipped (summary w') = S (skipped (summary w)) ∧
           skipped_files w' = skipped_files w ++ [name src] ∧
           failed (summary w') = failed (summary w) ∧
           failed_files w' = failed_files w ∧
           stdout w' = stdout w ++ ["Skipped (no audio): " +:+ name src] ∧
           calls w' = calls w ++ [call_convert_video_to_audio src dest;
                                  call_VideoFileClip src] ∧
           fs w' = fs w ∧
           fs w' !! dest = fs w !! dest) ∧
  (∀ out_dir ext,
     detect_type src = Some video → ext ∈ AUDIO_CHOICES →
     ∃ w', per_file lib out_dir ext (convert_video_to_audio lib) src w = Ok tt w' ∧
           per_file lib out_dir ext (guarded (convert_video_to_audio lib)) src w
             = Ok tt w' ∧
           ledger w' = record src Skipped (ledger w) ∧
           fs w' = fs w).
Proof.
  intros Hsrc Hclip. split.
  - intros dest.
    destruct (no_audio_run lib src dest data w Hsrc Hclip)
      as (w' & Hrun & Hled & Hout & Hcalls & Hfs).
    exists w'. split_and!; try done.
    + exact (f_equal (λ L, skipped (l_summary L)) Hled).
    + exact (f_equal l_skipped Hled).
    + exact (f_equal (λ L, failed (l_summary L)) Hled).
    + exact (f_equal l_failed Hled).
    + by rewrite Hfs.
  - intros out_dir ext Hvideo Hext.
    pose proof (video_to_audio_suffix_differs (fs w) out_dir src ext Hvideo Hext)
      as Hne.
    set (req := out_dir // (stem src +:+ "." +:+ ext)) in *.
    set (dest := unique_file_path (fs w) req) in *.
    set (w1 := set_calls (calls w ++ [call_get_unique_file_path req]) w).
    assert (Hfs1 : fs w1 = fs w) by by destruct w.
    assert (Hled1 : ledger w1 = ledger w) by by destruct w.
    assert (Hcopy : copy_same_format lib src dest w1 = Ok false w1).
    { pose proof (copy_same_format_spec lib src dest w1) as Hpost.
      unfold post in Hpost.
      destruct (copy_same_format lib src dest w1) as [[] w2 | e w2].
      - by destruct Hpost as [? _].
      - by destruct Hpost as [_ ->].
      - by destruct Hpost as [? _]. }
    destruct (no_audio_run lib src dest data w1) as (w' & Hrun & Hled & _ & _ & Hfs);
      [by rewrite Hfs1 | done |].
    exists w'. unfold per_file, guarded. fold req.
    unfold bind at 1 3. rewrite get_unique_file_path_eq. fold dest w1.
    unfold bind, try_except. rewrite Hcopy, Hrun.
    split_and!; [done | done | by rewrite Hled, Hled1 | by rewrite Hfs, Hfs1].
Qed.

Lemma convert_video_to_audio_no_audio_witness :
  ∃ w', convert_video_to_audio demo_lib (Path_of_string "/in/s.mp4")
          (Path_of_string "/out/s.mp3") (initial_world video_fs []) = Ok tt w' ∧
        skipped_files w' = ["s.mp4"] ∧ failed_files w' = [] ∧
        fs w' !! Path_of_string "/out/s.mp3" = None.
Proof.
  destruct (convert_video_to_audio_no_audio demo_lib (Path_of_string "/in/s.mp4")
              "silent" (initial_world video_fs []) eq_refl eq_refl) as [Hfn _].
  destruct (Hfn (Path_of_string "/out/s.mp3"))
    as (w' & Hrun & _ & _ & Hskipped & _ & Hfailed & _ & _ & _ & Hdest).
  exists w'. split; [exact Hrun|].
  split; [exact Hskipped|].
  split; [exact Hfailed|].
  rewrite Hdest. reflexivity.
Defined.

(** The same through [main]: a single silent video, default output folder,
    audio extraction to ogg. *)
Lemma no_audio_single_file_run :
  match main demo_lib (initial_world video_fs ["/in/s.mp4"; ""; "2"; "ogg"]) with
  | Ok _ w' =>
      summary w' = mkSummary 0 0 1 0 ∧ skipped_files w' = ["s.mp4"] ∧
      failed_files w' = [] ∧
      fs w' !! Path_of_string "/in/Converted Media" = Some Dir ∧
      fs w' !! Path_of_string "/in/Converted Media/s.ogg" = None
  | Raise _ _ => False
  end.
Proof. vm_compute. split_and!; reflexivity. Qed.
